(** * Sales analytics system: record store, filters, bucketing, aggregation

    A shallow embedding of [database.py] (the SQLite record store), of
    the reporting pipeline of [analytics.py] (sidebar controls, filters,
    period bucketing, group-by aggregation, top-N ranking, derived ratio
    metrics) and of the form handler of [data_entry.py].

    Modelling conventions.
    - Money amounts ([sales], [profit]) are rationals [Q]: the source holds
      them as IEEE doubles, and the rounding of additions is abstracted.
      What IEEE division does on a zero denominator (NaN, infinities) is
      kept, see [fval].
      Where a property depends on the rounding of binary64 additions, the
      sums are also modelled over primitive floats, see [float_sum].
    - A text is the list of its characters, each a code point below 256.
    - A calendar date is a (year, month, day) triple over [Z].
    - Integers are mathematical integers; what SQLite and pandas do beyond
      the signed 64-bit range is written out, see [int64] and [wrap64].
    - The [sales] table is a finite map from the primary key [id] to the
      row, together with the AUTOINCREMENT counter.
    - A pandas frame of sale records is the list of its rows, in order. *)

From Stdlib Require Import QArith Qminmax PrimFloat.
From stdpp Require Import gmap strings list fin_maps sorting pretty.

Local Open Scope Z_scope.

(** ** Calendar arithmetic (pandas [ccalendar]) *)

Record date := mkDate { year : Z; month : Z; day : Z }.

Global Instance date_eq_dec : EqDecision date.
Proof. solve_decision. Defined.

Definition is_leap_year (y : Z) : bool :=
  ((y mod 4 =? 0) && negb (y mod 100 =? 0)) || (y mod 400 =? 0).

Definition days_in_month (y m : Z) : Z :=
  if m =? 2 then (if is_leap_year y then 29 else 28)
  else if (m =? 4) || (m =? 6) || (m =? 9) || (m =? 11) then 30
  else 31.

Definition valid_date (d : date) : Prop :=
  1 <= month d <= 12 /\ 1 <= day d <= days_in_month (year d) (month d).

(** Days before the first of month [m] in a common year. *)
Definition month_offset (m : Z) : Z :=
  match m with
  | 1 => 0 | 2 => 31 | 3 => 59 | 4 => 90 | 5 => 120 | 6 => 151
  | 7 => 181 | 8 => 212 | 9 => 243 | 10 => 273 | 11 => 304 | 12 => 334
  | _ => 365
  end.

Definition get_day_of_year (y m d : Z) : Z :=
  month_offset m + (if is_leap_year y && (2 <? m) then 1 else 0) + d.

Definition sakamoto_arr (m : Z) : Z :=
  match m with
  | 1 => 0 | 2 => 3 | 3 => 2 | 4 => 5 | 5 => 0 | 6 => 3
  | 7 => 5 | 8 => 1 | 9 => 4 | 10 => 6 | 11 => 2 | 12 => 4
  | _ => 0
  end.

(** Monday is 0, Sunday is 6. *)
Definition dayofweek (y m d : Z) : Z :=
  let y' := if m <? 3 then y - 1 else y in
  let dw := (y' + y' / 4 - y' / 100 + y' / 400 + sakamoto_arr m + d) mod 7 in
  (dw + 6) mod 7.

(** The week component of [dt.isocalendar()]. *)
Definition get_week_of_year (y m d : Z) : Z :=
  let doy := get_day_of_year y m d in
  let dow := dayofweek y m d in
  let est := (doy - 1) - dow + 3 in
  if est <? 0 then
    (if (-2 <? est) || ((est =? -2) && is_leap_year (y - 1)) then 53 else 52)
  else
    let w := est / 7 + 1 in
    if (w =? 53) && (31 - d + dow <? 3) then 1 else w.

Definition iso_week (d : date) : Z := get_week_of_year (year d) (month d) (day d).

Definition quarter (d : date) : Z := (month d - 1) / 3 + 1.

(** Chronological order, as Python compares [datetime.date] values. *)
Definition date_le (a b : date) : Prop :=
  year a < year b \/
  (year a = year b /\ (month a < month b \/ (month a = month b /\ day a <= day b))).

Definition date_leb (a b : date) : bool :=
  (year a <? year b) ||
  ((year a =? year b) &&
   ((month a <? month b) || ((month a =? month b) && (day a <=? day b)))).

(** ** Text helpers *)

(** [str.zfill]: pad on the left with the digit zero up to [w] characters. *)
Fixpoint zeros (n : nat) : string :=
  match n with O => EmptyString | S k => "0" +:+ zeros k end.

Definition zfill (w : nat) (s : string) : string :=
  zeros (w - String.length s) +:+ s.

(** [strftime] with the two formats the dashboard uses. *)
Definition strftime_Ym (d : date) : string :=
  zfill 4 (pretty (year d)) +:+ "-" +:+ zfill 2 (pretty (month d)).

Definition strftime_Ymd (d : date) : string :=
  strftime_Ym d +:+ "-" +:+ zfill 2 (pretty (day d)).

(** [order_date.strftime("%Y-%m-%d")] of a [datetime.date], the text
    [add_sale_record] stores: the C library writes the year without
    padding, so a year below 1000 has fewer than four digits. For the
    years 1000 to 9999 it is also the text the connection writes for a
    date parameter, see [isoformat]. *)
Definition stored_date (d : date) : string :=
  pretty (year d) +:+ "-" +:+ zfill 2 (pretty (month d)) +:+ "-" +:+ zfill 2 (pretty (day d)).

(** Characters [str.strip()] removes, among the code points below 256:
    the ASCII white space, the separators 28 to 31, NEXT LINE (133) and
    NO-BREAK SPACE (160). *)
Definition is_space (c : Ascii.ascii) : bool :=
  let n := Ascii.nat_of_ascii c in
  ((9 <=? n) && (n <=? 13))%nat || ((28 <=? n) && (n <=? 32))%nat
  || (n =? 133)%nat || (n =? 160)%nat.

Fixpoint lstrip (s : string) : string :=
  match s with
  | EmptyString => EmptyString
  | String c rest => if is_space c then lstrip rest else s
  end.

Fixpoint rstrip (s : string) : string :=
  match s with
  | EmptyString => EmptyString
  | String c rest =>
      match rstrip rest with
      | EmptyString => if is_space c then EmptyString else String c EmptyString
      | r => String c r
      end
  end.

Definition strip (s : string) : string := rstrip (lstrip s).

(** Python truthiness of a [str]: the empty string is falsy. *)
Definition truthy (s : string) : bool :=
  match s with EmptyString => false | _ => true end.

(** ** Sale records and frames *)

Record SaleRecord := mkSale {
  id : Z;
  order_date : date;
  product : string;
  customer : string;
  sales : Q;
  profit : Q;
  quantity : Z;
  created_at : Z
}.

(** A frame of sale records: its column labels and its rows. *)
Record DataFrame := mkFrame { columns : list string; data : list SaleRecord }.

(** [pd.DataFrame()]: no columns, no rows. *)
Definition empty_frame : DataFrame := mkFrame [] [].

Definition sales_columns : list string :=
  ["id"; "order_date"; "product"; "customer"; "sales"; "profit"; "quantity"; "created_at"].

Definition is_nil {A} (l : list A) : bool :=
  match l with [] => true | _ => false end.

(** [DataFrame.empty]: some axis has length zero. *)
Definition empty (df : DataFrame) : bool := is_nil (columns df) || is_nil (data df).

(** ** Floating-point quotients

    The result of an IEEE division of two finite numbers, with the
    rounding of a finite quotient abstracted. *)

Inductive fval := Fin (q : Q) | PosInf | NegInf | NaN.

Definition Qlt_bool (a b : Q) : bool := negb (Qle_bool b a).

Definition fdiv (a b : Q) : fval :=
  if Qeq_bool b 0 then
    (if Qeq_bool a 0 then NaN else if Qlt_bool 0 a then PosInf else NegInf)
  else Fin (a / b).

Definition fmul (x : fval) (c : Q) : fval :=
  match x with
  | Fin q => Fin (q * c)
  | NaN => NaN
  | PosInf => if Qeq_bool c 0 then NaN else if Qlt_bool 0 c then PosInf else NegInf
  | NegInf => if Qeq_bool c 0 then NaN else if Qlt_bool 0 c then NegInf else PosInf
  end.

Definition Qsum (l : list Q) : Q := foldr Qplus 0%Q l.
Definition Zsum (l : list Z) : Z := foldr Z.add 0 l.

(** ** Signed 64-bit integers

    The range of an SQLite INTEGER and of a pandas [int64]; an [int64]
    addition that leaves the range wraps around. *)
Definition int64 (z : Z) : bool := (- 2 ^ 63 <=? z) && (z <=? 2 ^ 63 - 1).

Definition wrap64 (z : Z) : Z := (z + 2 ^ 63) mod 2 ^ 64 - 2 ^ 63.

(** ** Binary64 column sums

    [Series.sum()] of a float64 column of fewer than eight rows: numpy adds
    the values in order, each addition rounded. *)
Definition float_sum (l : list float) : float := foldl PrimFloat.add 0%float l.

(** One step of the compensated sum [groupby(...).sum()] keeps for each
    group of a float64 column: the running sum and its compensation. *)
Definition kahan_add (st : float * float) (val : float) : float * float :=
  let y := (val - st.2)%float in
  let t := (st.1 + y)%float in
  (t, (t - st.1 - y)%float).

(** The group sums of a float64 column, from the (key, value) pairs of the
    frame in frame order. *)
Definition float_groupby `{Countable K} (rows : list (K * float)) : gmap K (float * float) :=
  foldl (λ m kv, <[kv.1 := kahan_add (default (0%float, 0%float) (m !! kv.1)) kv.2]> m) ∅ rows.

(** ** Filter engine ([analytics.py], "Apply filters") *)

(** The sidebar state the filters read: [st.session_state.date_range] is
    the tuple [st.date_input] returned (zero, one or two dates). *)
Record Filters := mkFilters {
  date_range : list date;
  selected_product : string;
  min_sales : Q;
  min_profit : Q
}.

Definition in_range (start_date end_date : date) (r : SaleRecord) : bool :=
  date_leb start_date (order_date r) && date_leb (order_date r) end_date.

Definition apply_filters (f : Filters) (df_all : list SaleRecord) : list SaleRecord :=
  let df := df_all in
  let df :=
    match date_range f with
    | [start_date; end_date] => List.filter (in_range start_date end_date) df
    | _ => df
    end in
  let df :=
    if negb (String.eqb (selected_product f) "All")
    then List.filter (λ r, String.eqb (product r) (selected_product f)) df
    else df in
  let df := List.filter (λ r, Qle_bool (min_sales f) (sales r)) df in
  let df := List.filter (λ r, Qle_bool (min_profit f) (profit r)) df in
  df.

(** ** Period bucketing ([analytics.py], "Prepare data for time series") *)

Inductive TimePeriod := Daily | Weekly | Monthly | Quarterly | Yearly.

(** A value of a period column: text for the formatted dates, an integer
    for week, quarter and year. *)
Inductive bucket_key := KeyText (s : string) | KeyInt (n : Z).

Global Instance bucket_key_eq_dec : EqDecision bucket_key.
Proof. solve_decision. Defined.

Global Instance bucket_key_countable : Countable bucket_key.
Proof.
  refine (inj_countable'
    (λ k, match k with KeyText s => inl s | KeyInt n => inr n end)
    (λ x, match x with inl s => KeyText s | inr n => KeyInt n end) _).
  by intros [].
Defined.

Definition period_col (time_period : TimePeriod) (r : SaleRecord) : bucket_key :=
  match time_period with
  | Daily => KeyText (strftime_Ymd (order_date r))
  | Weekly => KeyInt (iso_week (order_date r))
  | Monthly => KeyText (strftime_Ym (order_date r))
  | Quarterly => KeyInt (quarter (order_date r))
  | Yearly => KeyInt (year (order_date r))
  end.

(** ** Aggregator ([df.groupby(key).agg(...)]) *)

Record Agg := mkAgg {
  agg_sales : Q;
  agg_profit : Q;
  agg_quantity : Z;
  agg_count : Z
}.

Definition agg_zero : Agg := mkAgg 0 0 0 0.

Definition agg_add (a : Agg) (r : SaleRecord) : Agg :=
  mkAgg (agg_sales a + sales r) (agg_profit a + profit r)
        (wrap64 (agg_quantity a + quantity r)) (agg_count a + 1).

(** Every row is added to the accumulator of its key. *)
Definition groupby `{Countable K} (key : SaleRecord → K) (df : list SaleRecord)
  : gmap K Agg :=
  foldl (λ m r, <[key r := agg_add (default agg_zero (m !! key r)) r]> m) ∅ df.

(** The order pandas sorts group keys in. *)
Class KeyOrder (K : Type) := key_leb : K → K → bool.

Global Instance string_key_order : KeyOrder string := String.leb.

Global Instance bucket_key_order : KeyOrder bucket_key := λ a b,
  match a, b with
  | KeyInt x, KeyInt y => x <=? y
  | KeyText x, KeyText y => String.leb x y
  | KeyText _, KeyInt _ => true
  | KeyInt _, KeyText _ => false
  end.

(** [reset_index()]: the groups as rows, in key order. *)
Definition reset_index `{Countable K} `{KeyOrder K} (g : gmap K Agg) : list (K * Agg) :=
  merge_sort (λ a b, Is_true (key_leb a.1 b.1)) (map_to_list g).

Definition aggregate `{Countable K} `{KeyOrder K}
  (key : SaleRecord → K) (df : list SaleRecord) : list (K * Agg) :=
  reset_index (groupby key df).

(** ** Ranking: [nlargest(n, column)] *)

(** Descending order of the ranking column. *)
Definition by_metric {A} (metric : A → Q) : relation A :=
  λ a b, Is_true (Qle_bool (metric b) (metric a)).

(** A stable sort by descending metric: a row goes before the first row
    whose metric is not larger than its own, so rows of equal metric keep
    the order they had. *)
Fixpoint insert_desc {A} (metric : A → Q) (x : A) (l : list A) : list A :=
  match l with
  | [] => [x]
  | y :: l' =>
      if Qlt_bool (metric x) (metric y) then y :: insert_desc metric x l'
      else x :: l
  end.

Definition sort_desc {A} (metric : A → Q) (rows : list A) : list A :=
  foldr (insert_desc metric) [] rows.

(** [nlargest(n, column)] with the default [keep='first']: the first [n]
    rows of the stable descending sort. *)
Definition nlargest {A} (n : nat) (metric : A → Q) (rows : list A) : list A :=
  take n (sort_desc metric rows).

(** ** Derived metrics *)

Definition margin (a : Agg) : fval := fmul (fdiv (agg_profit a) (agg_sales a)) 100.

(** Trend rows: the aggregate with its [profit_margin] column. *)
Definition trend_data (time_period : TimePeriod) (df : list SaleRecord)
  : list (bucket_key * Agg * fval) :=
  map (λ row, (row, margin row.2)) (aggregate (period_col time_period) df).

Definition product_sales (df : list SaleRecord) : list (string * Agg * fval) :=
  map (λ row, (row, margin row.2))
      (nlargest 10 (λ row, agg_sales row.2) (aggregate product df)).

Definition customer_sales (df : list SaleRecord) : list (string * Agg) :=
  nlargest 10 (λ row, agg_sales row.2) (aggregate customer df).

Record Profitability := mkProfitability {
  pa_product : string;
  pa_agg : Agg;
  pa_profit_margin : fval;
  pa_avg_price : fval;
  pa_profit_per_unit : fval
}.

Definition profit_analysis (df : list SaleRecord) : list Profitability :=
  map (λ row,
         mkProfitability row.1 row.2 (margin row.2)
           (fdiv (agg_sales row.2) (inject_Z (agg_quantity row.2)))
           (fdiv (agg_profit row.2) (inject_Z (agg_quantity row.2))))
      (aggregate product df).

(** The KPI cards. *)
Record Kpis := mkKpis {
  total_sales : Q;
  total_profit : Q;
  total_orders : Z;
  avg_order_value : fval;
  profit_margin : fval;
  avg_profit_per_order : fval
}.

Definition kpis (df : list SaleRecord) : Kpis :=
  let total_sales := Qsum (map sales df) in
  let total_profit := Qsum (map profit df) in
  let total_orders := Z.of_nat (length df) in
  mkKpis total_sales total_profit total_orders
    (if 0 <? total_orders then fdiv total_sales (inject_Z total_orders) else Fin 0)
    (if Qlt_bool 0 total_sales then fmul (fdiv total_profit total_sales) 100 else Fin 0)
    (if 0 <? total_orders then fdiv total_profit (inject_Z total_orders) else Fin 0).

(** What the dashboard page shows for a fetched frame. *)
Inductive Page :=
  | NoDataWarning
  | NoMatchWarning
  | Dashboard (df : list SaleRecord).

Definition analytics_page (df_all : DataFrame) (f : Filters) : Page :=
  if empty df_all then NoDataWarning
  else
    let df := apply_filters f (data df_all) in
    if is_nil df then NoMatchWarning else Dashboard df.

(** ** Record store ([database.py]) *)

(** The [sales] table keyed by its primary key, and the AUTOINCREMENT
    counter SQLite keeps in [sqlite_sequence]. *)
Record Database := mkDb {
  table : gmap Z SaleRecord;
  sqlite_sequence : Z
}.

(** [init_database] on a fresh file. *)
Definition init_database : Database := mkDb ∅ 0.

(** [CONSTRAINT chk_profit CHECK (profit <= sales)]. *)
Definition chk_profit (r : SaleRecord) : bool := Qle_bool (profit r) (sales r).

Definition max_rowid (t : gmap Z SaleRecord) : Z :=
  map_fold (λ k _ acc, Z.max k acc) 0 t.

(** AUTOINCREMENT: one more than the largest rowid the table has ever held. *)
Definition next_rowid (db : Database) : Z :=
  Z.max (sqlite_sequence db) (max_rowid (table db)) + 1.

(** [INSERT INTO sales (...) VALUES (...)]: the new rowid and the new
    state, or the text of the [sqlite3.Error]. A table that has held the
    largest rowid takes no more rows (SQLITE_FULL); a row that breaks the
    CHECK aborts the statement. *)
Definition sql_insert (now : Z) (db : Database) (d : date) (p c : string)
    (s pr : Q) (q : Z) : string + (Z * Database) :=
  let rowid := next_rowid db in
  let r := mkSale rowid d p c s pr q now in
  if negb (int64 rowid) then inl "database or disk is full"
  else if chk_profit r then inr (rowid, mkDb (<[rowid := r]> (table db)) rowid)
  else inl "CHECK constraint failed: chk_profit".

(** [add_sale_record]. [fault] is the [sqlite3.Error] the connection raises,
    if any; [now] is CURRENT_TIMESTAMP. A quantity outside the signed
    64-bit range cannot be bound: the [OverflowError] is caught by the
    second handler. *)
Definition add_sale_record (fault : option string) (now : Z) (db : Database)
    (order_date : date) (product customer : string) (sales profit : Q)
    (quantity : Z) : (bool * string) * Database :=
  if negb (truthy product) || negb (truthy customer) then
    ((false, "Product and Customer are required"), db)
  else if Qlt_bool sales profit then
    ((false, "Profit cannot be greater than sales amount"), db)
  else if quantity <=? 0 then
    ((false, "Quantity must be greater than 0"), db)
  else
    match fault with
    | Some e => ((false, "Database error: " +:+ e), db)
    | None =>
        if negb (int64 quantity) then
          ((false, "Unexpected error: Python int too large to convert to SQLite INTEGER"), db)
        else
          match sql_insert now db order_date (strip product) (strip customer)
                  sales profit quantity with
          | inl e => ((false, "Database error: " +:+ e), db)
          | inr (lastrowid, db') =>
              ((true, "Sale record #" +:+ pretty lastrowid +:+ " added successfully"), db')
          end
    end.

(** [ORDER BY order_date DESC, created_at DESC]: the column [order_date]
    holds the stored text of the date, and texts are compared. *)
Definition fetch_order (a b : SaleRecord) : bool :=
  if decide (stored_date (order_date a) = stored_date (order_date b))
  then created_at b <=? created_at a
  else String.leb (stored_date (order_date b)) (stored_date (order_date a)).

Definition select_all (db : Database) : list SaleRecord :=
  merge_sort (λ a b, Is_true (fetch_order a b)) (map_to_list (table db)).*2.

(** [get_all_sales]: on any exception the handler returns [pd.DataFrame()]. *)
Definition get_all_sales (fault : option string) (db : Database) : DataFrame :=
  match fault with
  | Some _ => empty_frame
  | None => mkFrame sales_columns (select_all db)
  end.

(** [DELETE FROM sales WHERE id = ?]: the row count and the new state. *)
Definition sql_delete (db : Database) (record_id : Z) : Z * Database :=
  match table db !! record_id with
  | Some _ => (1, mkDb (delete record_id (table db)) (sqlite_sequence db))
  | None => (0, db)
  end.

Definition delete_sale_record (fault : option string) (db : Database)
    (record_id : Z) : bool * Database :=
  match fault with
  | Some _ => (false, db)
  | None => let '(rowcount, db') := sql_delete db record_id in (0 <? rowcount, db')
  end.

(** One [column = ?] of the SET clause with its bound value, the value
    being of the column's declared type; [SetUnknown] is a keyword that
    names no column of the table. *)
Inductive assignment :=
  | SetId (v : Z)
  | SetOrderDate (v : date)
  | SetProduct (v : string)
  | SetCustomer (v : string)
  | SetSales (v : Q)
  | SetProfit (v : Q)
  | SetQuantity (v : Z)
  | SetCreatedAt (v : Z)
  | SetUnknown (column : string).

Definition known_column (a : assignment) : bool :=
  match a with SetUnknown _ => false | _ => true end.

(** An integer value can be bound when it is in the signed 64-bit range. *)
Definition bound_int64 (a : assignment) : bool :=
  match a with
  | SetId v | SetQuantity v | SetCreatedAt v => int64 v
  | _ => true
  end.

Definition assign (r : SaleRecord) (a : assignment) : SaleRecord :=
  match a with
  | SetId v => mkSale v (order_date r) (product r) (customer r) (sales r) (profit r) (quantity r) (created_at r)
  | SetOrderDate v => mkSale (id r) v (product r) (customer r) (sales r) (profit r) (quantity r) (created_at r)
  | SetProduct v => mkSale (id r) (order_date r) v (customer r) (sales r) (profit r) (quantity r) (created_at r)
  | SetCustomer v => mkSale (id r) (order_date r) (product r) v (sales r) (profit r) (quantity r) (created_at r)
  | SetSales v => mkSale (id r) (order_date r) (product r) (customer r) v (profit r) (quantity r) (created_at r)
  | SetProfit v => mkSale (id r) (order_date r) (product r) (customer r) (sales r) v (quantity r) (created_at r)
  | SetQuantity v => mkSale (id r) (order_date r) (product r) (customer r) (sales r) (profit r) v (created_at r)
  | SetCreatedAt v => mkSale (id r) (order_date r) (product r) (customer r) (sales r) (profit r) (quantity r) v
  | SetUnknown _ => r
  end.

(** [UPDATE sales SET ... WHERE id = ?]: the new state, or the text of the
    exception. A statement with an empty SET clause or an unknown column
    does not compile; an integer outside the signed 64-bit range cannot be
    bound ([OverflowError]); a row that would break the CHECK or the
    primary key aborts the statement. *)
Definition sql_update (db : Database) (record_id : Z) (updates : list assignment)
  : string + Database :=
  if is_nil updates then inl "near WHERE: syntax error"
  else if negb (forallb known_column updates) then inl "no such column"
  else if negb (int64 record_id && forallb bound_int64 updates)
  then inl "Python int too large to convert to SQLite INTEGER"
  else
    match table db !! record_id with
    | None => inr db
    | Some r =>
        let r' := foldl assign r updates in
        if negb (chk_profit r') then inl "CHECK constraint failed: chk_profit"
        else if negb (bool_decide (id r' = record_id))
                && bool_decide (is_Some (table db !! id r'))
        then inl "UNIQUE constraint failed: sales.id"
        else inr (mkDb (<[id r' := r']> (delete record_id (table db)))
                       (sqlite_sequence db))
    end.

(** [update_sale_record]: true unless an exception was raised. *)
Definition update_sale_record (fault : option string) (db : Database)
    (record_id : Z) (updates : list assignment) : bool * Database :=
  match fault with
  | Some _ => (false, db)
  | None =>
      match sql_update db record_id updates with
      | inl _ => (false, db)
      | inr db' => (true, db')
      end
  end.

(** ** Histories of the store *)

Inductive Call :=
  | CallAdd (fault : option string) (now : Z) (order_date : date)
      (product customer : string) (sales profit : Q) (quantity : Z)
  | CallUpdate (fault : option string) (record_id : Z) (updates : list assignment)
  | CallDelete (fault : option string) (record_id : Z).

Definition run_call (db : Database) (c : Call) : Database :=
  match c with
  | CallAdd fault now d p cu s pr q => (add_sale_record fault now db d p cu s pr q).2
  | CallUpdate fault i u => (update_sale_record fault db i u).2
  | CallDelete fault i => (delete_sale_record fault db i).2
  end.

Definition run_calls (cs : list Call) : Database := foldl run_call init_database cs.

Inductive reachable : Database → Prop :=
  | reachable_init : reachable init_database
  | reachable_call db c : reachable db → reachable (run_call db c).

(** The stored rows, in no particular order. *)
Definition records (db : Database) : list SaleRecord := (map_to_list (table db)).*2.

Definition record_count (db : Database) : nat := size (table db).

(** Every call either leaves the table alone, removes a key, or stores
    under its own [id] a row that passed the CHECK, in place of the row
    it replaces; the target key is free once that row is gone. *)
Inductive table_step (t : gmap Z SaleRecord) : gmap Z SaleRecord → Prop :=
  | step_same : table_step t t
  | step_delete k : table_step t (delete k t)
  | step_put k r :
      chk_profit r = true → table_step t (<[id r := r]> (delete k t)).

(** ** Sidebar controls ([analytics.py], "Dashboard Controls") *)

Definition date_min (a b : date) : date := if date_leb a b then a else b.

Definition date_max (a b : date) : date := if date_leb a b then b else a.

(** [df_all['order_date'].min()] and [.max()]; the frame has rows when the
    sidebar computes them. *)
Definition min_date (df : list SaleRecord) : option date :=
  match df with
  | [] => None
  | r :: rest => Some (foldl (λ m x, date_min m (order_date x)) (order_date r) rest)
  end.

Definition max_date (df : list SaleRecord) : option date :=
  match df with
  | [] => None
  | r :: rest => Some (foldl (λ m x, date_max m (order_date x)) (order_date r) rest)
  end.

(** The options of the product selector. *)
Definition products (df_all : list SaleRecord) : list string :=
  "All" :: merge_sort (λ a b, Is_true (String.leb a b)) (remove_dups (product <$> df_all)).

(** The filters as the widgets first show them: the whole date range, all
    products, both minimum amounts zero. Without data the sidebar shows no
    widget. *)
Definition default_filters (df_all : DataFrame) : option Filters :=
  if empty df_all then None
  else
    match min_date (data df_all), max_date (data df_all) with
    | Some a, Some b => Some (mkFilters [a; b] "All" 0 0)
    | _, _ => None
    end.

(** [Series.nunique()] of a text column. *)
Definition nunique (l : list string) : nat := length (remove_dups l).

(** The footer metric "Products Analyzed": products in the Filtered View,
    products in the whole frame. *)
Definition products_analyzed (df df_all : list SaleRecord) : nat * nat :=
  (nunique (product <$> df), nunique (product <$> df_all)).

(** ** Data entry page ([data_entry.py]) *)

(** The box the page shows after a submission, without its markup. *)
Inductive FormMessage := ErrorBox (text : string) | SuccessBox (text : string).

(** "Handle form submission": the handler validates the trimmed labels and
    the profit, then calls [add_sale_record]. *)
Definition submit_form (fault : option string) (now : Z) (db : Database)
    (order_date : date) (product customer : string) (quantity : Z) (sales profit : Q)
  : FormMessage * Database :=
  if negb (truthy (strip product)) || negb (truthy (strip customer)) then
    (ErrorBox "Product and Customer names are required", db)
  else if Qlt_bool sales profit then
    (ErrorBox "Profit cannot be greater than sales amount", db)
  else
    let '((success, message), db') :=
      add_sale_record fault now db order_date product customer sales profit quantity in
    if success then (SuccessBox message, db') else (ErrorBox message, db').

(** What a visitor of the page can do to the store: submit the form, or
    confirm the deletion of a record. *)
Inductive PageAction :=
  | ActSubmit (fault : option string) (now : Z) (order_date : date)
      (product customer : string) (quantity : Z) (sales profit : Q)
  | ActDelete (fault : option string) (record_id : Z).

Definition run_action (db : Database) (a : PageAction) : Database :=
  match a with
  | ActSubmit fault now d p c q s pr => (submit_form fault now db d p c q s pr).2
  | ActDelete fault i => (delete_sale_record fault db i).2
  end.

(** ** Sales summary ([database.py], [get_sales_summary]) *)

Record SummaryFrame := mkSummary {
  summary_columns : list string;
  summary_rows : list (string * string * string * Agg)
}.

Definition summary_labels : list string :=
  ["order_date"; "product"; "customer"; "total_sales"; "total_profit";
   "total_quantity"; "transaction_count"].

(** [GROUP BY order_date, product, customer]; the column [order_date]
    holds the stored text of the date. *)
Definition summary_key (r : SaleRecord) : string * string * string :=
  (stored_date (order_date r), product r, customer r).

(** [date.isoformat()], the text the connection binds for a date
    parameter: the year is padded to four digits. *)
Definition isoformat (d : date) : string := strftime_Ymd d.

(** [WHERE order_date BETWEEN ? AND ?]: the stored text is compared with
    the texts of the two parameters. *)
Definition between (start_date end_date : date) (r : SaleRecord) : bool :=
  String.leb (isoformat start_date) (stored_date (order_date r)) &&
  String.leb (stored_date (order_date r)) (isoformat end_date).

(** [ORDER BY order_date DESC]. *)
Definition summary_order (a b : string * string * string * Agg) : bool :=
  String.leb b.1.1.1 a.1.1.1.

(** [SUM(quantity)] over the rows of one group: SQLite adds INTEGER values
    in signed 64 bits and raises "integer overflow" once a partial sum
    leaves the range. *)
Definition sqlite_sum (l : list Z) : option Z :=
  foldl (λ acc q, x ← acc; if int64 (x + q) then Some (x + q) else None) (Some 0) l.

(** [get_sales_summary]: the range is applied when both of its ends are
    given; on any exception, raised by the connection or by a [SUM] that
    overflows, the handler returns [pd.DataFrame()]. *)
Definition get_sales_summary (fault : option string) (db : Database)
    (start_date end_date : option date) : SummaryFrame :=
  match fault with
  | Some _ => mkSummary [] []
  | None =>
      let rows :=
        match start_date, end_date with
        | Some s, Some e => List.filter (between s e) (records db)
        | _, _ => records db
        end in
      let groups := map_to_list (groupby summary_key rows) in
      if forallb (λ g, bool_decide (is_Some
                    (sqlite_sum (map quantity
                       (List.filter (λ r, bool_decide (summary_key r = g.1)) rows))))) groups
      then mkSummary summary_labels
             (merge_sort (λ a b, Is_true (summary_order a b)) groups)
      else mkSummary [] []
  end.

(** ** Specification predicates *)

(** The four filter predicates of a request, read conjunctively. A date
    range is supplied when the picker holds both of its ends. *)
Definition satisfies (f : Filters) (r : SaleRecord) : Prop :=
  match date_range f with
  | [start_date; end_date] =>
      date_le start_date (order_date r) ∧ date_le (order_date r) end_date
  | _ => True
  end ∧
  (selected_product f = "All" ∨ product r = selected_product f) ∧
  (min_sales f <= sales r)%Q ∧
  (min_profit f <= profit r)%Q.

(** ISO 8601 week numbering, by the rule of the standard: a week runs from
    Monday to Sunday and belongs to the year its Thursday falls in; its
    number is the rank of that Thursday among the Thursdays of the year.
    Days are counted from 0001-01-01, which is day 1 and a Monday. *)
Definition days_before_year (y : Z) : Z :=
  365 * (y - 1) + (y - 1) / 4 - (y - 1) / 100 + (y - 1) / 400.

Definition toordinal (d : date) : Z :=
  days_before_year (year d) + get_day_of_year (year d) (month d) (day d).

Definition weekday (n : Z) : Z := (n + 6) mod 7.

Definition iso_week_spec (d : date) : Z :=
  let n := toordinal d in
  let thursday := n - weekday n + 3 in
  let y :=
    if thursday <=? days_before_year (year d) then year d - 1
    else if days_before_year (year d + 1) <? thursday then year d + 1
    else year d in
  (thursday - days_before_year y - 1) / 7 + 1.

(** Fixed-width decimal tokens, digit by digit, and the lexicographic
    combination of two comparisons: the text of a zero-padded number and the
    order in which such texts sort. *)
Definition digit (k : Z) : Ascii.ascii := Ascii.ascii_of_nat (48 + Z.to_nat k).

Definition digits2 (n : Z) : string :=
  String (digit (n / 10)) (String (digit (n mod 10)) EmptyString).

Definition digits4 (n : Z) : string :=
  String (digit (n / 1000)) (String (digit (n / 100 mod 10)) (digits2 (n mod 100))).

Definition lex (c1 c2 : comparison) : comparison :=
  match c1 with Eq => c2 | Lt => Lt | Gt => Gt end.

(** Every stored row sits under its own [id]. *)
Definition consistent (db : Database) : Prop :=
  map_Forall (λ k r, id r = k) (table db).

(** The rows of a frame whose grouping key is [k]. *)
Definition group_of `{EqDecision K} (key : SaleRecord → K) (k : K)
    (df : list SaleRecord) : list SaleRecord :=
  List.filter (λ r, bool_decide (key r = k)) df.

(** Newest first: the later date, and on one date the later timestamp. *)
Definition newer_first (a b : SaleRecord) : Prop :=
  date_le (order_date b) (order_date a) ∧
  (order_date a = order_date b → created_at b ≤ created_at a).

(** The four filters as one row predicate. *)
Definition keeps (f : Filters) (r : SaleRecord) : bool :=
  match date_range f with
  | [start_date; end_date] => in_range start_date end_date r
  | _ => true
  end
  && (String.eqb (selected_product f) "All" || String.eqb (product r) (selected_product f))
  && Qle_bool (min_sales f) (sales r)
  && Qle_bool (min_profit f) (profit r).

(** A profit margin that is a number, at most 100 percent, whenever the
    sales of its row are positive. *)
Definition margin_bounded (a : Agg) (m : fval) : Prop :=
  (agg_profit a <= agg_sales a)%Q ∧
  ((0 < agg_sales a)%Q → ∃ q, m = Fin q ∧ (q <= 100)%Q).

(** Strictly before, in the order of the group keys. *)
Definition key_lt `{KeyOrder K} (a b : K) : Prop := key_leb a b = true ∧ a ≠ b.

(** A record the form accepts: labelled, trimmed, sold in a positive
    quantity, with profit at most sales. *)
Definition well_formed (r : SaleRecord) : Prop :=
  product r ≠ "" ∧ customer r ≠ "" ∧
  strip (product r) = product r ∧ strip (customer r) = customer r ∧
  0 < quantity r ∧ (profit r <= sales r)%Q.

(** ** Sample inputs *)

(** The product and sales columns of a view of three records. *)
#[warnings="-inexact-float"]
Definition rounding_view : list (string * float) :=
  [("A", 2.9%float); ("B", 3.3%float); ("B", 1.8%float)].

Definition zero_sale : SaleRecord :=
  mkSale 1 (mkDate 2024 2 1) "Gadget" "Ann" 0 0 1 0.

Definition one_row_db : Database :=
  (add_sale_record None 5 init_database (mkDate 2024 1 1) "Widget" "Ann" 100 20 2).2.

Definition no_filters : Filters := mkFilters [] "All" 0 0.

Definition widget_sale : SaleRecord :=
  mkSale 1 (mkDate 2024 1 1) "Widget" "Ann" 100 20 2 5.

Definition feb_2023_sale : SaleRecord :=
  mkSale 1 (mkDate 2023 2 1) "Widget" "Ann" 100 20 2 0.

Definition feb_2024_sale : SaleRecord :=
  mkSale 2 (mkDate 2024 2 1) "Gadget" "Bob" 50 5 1 0.

(** * Properties *)

Section Basics.

Lemma date_leb_le a b : date_leb a b = true ↔ date_le a b.
Proof.
  unfold date_leb, date_le.
  rewrite orb_true_iff, !andb_true_iff, orb_true_iff, andb_true_iff.
  rewrite !Z.ltb_lt, !Z.eqb_eq, Z.leb_le. tauto.
Qed.

Lemma Qlt_bool_lt a b : Qlt_bool a b = true ↔ (a < b)%Q.
Proof.
  unfold Qlt_bool. rewrite negb_true_iff. split.
  - intros H. apply Qnot_le_lt. intros Hle. apply Qle_bool_iff in Hle. congruence.
  - intros H. destruct (Qle_bool b a) eqn:E; [|done].
    apply Qle_bool_iff in E. exfalso. by apply (Qlt_not_le a b).
Qed.

End Basics.

Section FilterEngine.

Lemma in_range_spec s e r :
  in_range s e r = true ↔ date_le s (order_date r) ∧ date_le (order_date r) e.
Proof. unfold in_range. by rewrite andb_true_iff, !date_leb_le. Qed.

(** C2. A record is in the Filtered View exactly when it is in the full
    record set and meets all four predicates: inside the inclusive date
    range when both ends are supplied, product equal to the selector
    (compared as text, case-sensitively) unless the selector is "All",
    sales at least [min_sales], profit at least [min_profit]. *)
Theorem filter_conjunction (f : Filters) (df_all : list SaleRecord) (r : SaleRecord) :
  r ∈ apply_filters f df_all ↔ r ∈ df_all ∧ satisfies f r.
Proof.
  unfold apply_filters, satisfies.
  rewrite !list_elem_of_In, !filter_In, !Qle_bool_iff.
  destruct (String.eqb (selected_product f) "All") eqn:Hall; simpl.
  - apply String.eqb_eq in Hall.
    destruct (date_range f) as [|s [|e [|? ?]]]; rewrite ?filter_In, ?in_range_spec; tauto.
  - apply String.eqb_neq in Hall.
    destruct (date_range f) as [|s [|e [|? ?]]];
      rewrite ?filter_In, ?in_range_spec, ?String.eqb_eq; tauto.
Qed.

End FilterEngine.

Section DerivedMetrics.

Lemma fdiv_zero_den (a b : Q) : (b == 0)%Q → fdiv a b ≠ Fin 0 ∧ ∀ q, fdiv a b ≠ Fin q.
Proof.
  intros Hb. apply Qeq_bool_iff in Hb. unfold fdiv. rewrite Hb.
  split; [|intros q]; by repeat case_match.
Qed.

Lemma margin_zero_sales (a : Agg) : (agg_sales a == 0)%Q → ∀ q, margin a ≠ Fin q.
Proof.
  intros Hs q. unfold margin, fdiv. apply Qeq_bool_iff in Hs. rewrite Hs.
  by repeat (case_match; simpl).
Qed.

(** The KPI cards guard every quotient. *)
Lemma kpis_zero_guard (df : list SaleRecord) :
  ((total_sales (kpis df) == 0)%Q → profit_margin (kpis df) = Fin 0) ∧
  (total_orders (kpis df) = 0 →
     avg_order_value (kpis df) = Fin 0 ∧ avg_profit_per_order (kpis df) = Fin 0).
Proof.
  unfold kpis; simpl. split.
  - intros H. destruct (Qlt_bool 0 _) eqn:E; [|done].
    apply Qlt_bool_lt in E. rewrite H in E. by apply Qlt_irrefl in E.
  - intros ->. done.
Qed.

(** C1. On a Filtered View holding one sale with sales 0 and profit 0
    the per-row profit margin of the trend table, of the profitability
    table and of the product ranking is NaN, not 0; only the KPI card,
    which tests its denominator, shows 0. *)
Theorem row_margin_unguarded :
  trend_data Monthly [zero_sale]
    = [(KeyText "2024-02", mkAgg (0 + 0) (0 + 0) 1 1, NaN)] ∧
  map pa_profit_margin (profit_analysis [zero_sale]) = [NaN] ∧
  map snd (product_sales [zero_sale]) = [NaN] ∧
  profit_margin (kpis [zero_sale]) = Fin 0.
Proof. by vm_compute. Qed.

End DerivedMetrics.

Section FetchAll.

Lemma select_all_empty s : select_all (mkDb ∅ s) = [].
Proof. unfold select_all; simpl. by rewrite map_to_list_empty. Qed.

(** C8. A failed read returns the frame [pd.DataFrame()], and that frame
    differs from the result of every successful read, the read of a store
    with no records included: the failure result has no column labels, a
    successful result has the eight labels of the query, so the columns of
    the returned frame tell a caller whether the read failed. Both the
    failure result and the "no data" result are [empty]. *)
Theorem failed_read_is_distinguishable (e : string) (db db' : Database)
    (fault : option string) (s : Z) :
  get_all_sales (Some e) db = empty_frame ∧
  get_all_sales (Some e) db ≠ get_all_sales None db' ∧
  columns (get_all_sales (Some e) db) = [] ∧
  columns (get_all_sales None db') = sales_columns ∧
  (is_nil (columns (get_all_sales fault db)) = true ↔ is_Some fault) ∧
  get_all_sales (Some e) db ≠ get_all_sales None (mkDb ∅ s) ∧
  empty (get_all_sales (Some e) db) = true ∧
  empty (get_all_sales None (mkDb ∅ s)) = true.
Proof.
  unfold get_all_sales, empty. cbn [columns data]. rewrite select_all_empty.
  split_and!; try done.
  destruct fault; cbn; split; eauto; done.
Qed.

(** The dashboard tests [df_all.empty] only: it shows the "no data"
    warning after a failed read as it does for a store with no records. *)
Lemma dashboard_tests_emptiness (e : string) (db : Database) (f : Filters) (s : Z) :
  analytics_page (get_all_sales (Some e) db) f = NoDataWarning ∧
  analytics_page (get_all_sales None (mkDb ∅ s)) f = NoDataWarning.
Proof.
  unfold analytics_page, get_all_sales, empty; simpl.
  rewrite select_all_empty. done.
Qed.

End FetchAll.

Section Store.

Implicit Types (db : Database) (t : gmap Z SaleRecord) (r : SaleRecord).

Lemma max_rowid_bound t k : is_Some (t !! k) → k ≤ max_rowid t.
Proof.
  unfold max_rowid. revert k.
  apply (map_fold_weak_ind (λ acc m, ∀ k, is_Some (m !! k) → k ≤ acc)).
  - intros k [x Hx]. by rewrite lookup_empty in Hx.
  - intros i x m acc Hi IH k Hk.
    destruct (decide (i = k)) as [->|Hne]; [lia|].
    rewrite lookup_insert_ne in Hk by done. specialize (IH k Hk). lia.
Qed.

Lemma next_rowid_fresh db : table db !! next_rowid db = None.
Proof.
  destruct (table db !! next_rowid db) eqn:E; [|done].
  assert (next_rowid db ≤ max_rowid (table db)) by (apply max_rowid_bound; eauto).
  unfold next_rowid in *. lia.
Qed.

Lemma max_rowid_nonneg t : 0 ≤ max_rowid t.
Proof.
  unfold max_rowid. apply (map_fold_weak_ind (λ acc _, 0 ≤ acc)); [done|].
  intros i x m acc _ IH. lia.
Qed.

Lemma next_rowid_positive db : 0 < next_rowid db.
Proof. pose proof (max_rowid_nonneg (table db)). unfold next_rowid. lia. Qed.

Lemma chk_profit_le r : chk_profit r = true ↔ (profit r <= sales r)%Q.
Proof. apply Qle_bool_iff. Qed.

Lemma int64_range z : int64 z = true ↔ - 2 ^ 63 ≤ z ≤ 2 ^ 63 - 1.
Proof. unfold int64. rewrite andb_true_iff, !Z.leb_le. done. Qed.

(** What a call of [add_sale_record] does when the connection works. *)
Lemma add_sale_record_cases now db d p c s pr q :
  let res := add_sale_record None now db d p c s pr q in
  (p = "" ∨ c = "" ∨ (s < pr)%Q ∨ q ≤ 0 ∨ int64 q = false
   ∨ int64 (next_rowid db) = false) ∧ res.1.1 = false ∧ res.2 = db
  ∨
  (p ≠ "" ∧ c ≠ "" ∧ (pr <= s)%Q ∧ 0 < q ∧ int64 q = true
   ∧ int64 (next_rowid db) = true) ∧ res.1.1 = true ∧
    table res.2 = <[next_rowid db := mkSale (next_rowid db) d (strip p) (strip c) s pr q now]> (table db) ∧
    sqlite_sequence res.2 = next_rowid db.
Proof.
  cbv zeta. unfold add_sale_record.
  destruct p as [|a p]; [left; split; [auto 10|done]|].
  destruct c as [|b c]; [left; split; [auto 10|done]|].
  cbn [truthy negb orb].
  destruct (Qlt_bool s pr) eqn:Hlt.
  { apply Qlt_bool_lt in Hlt. left; split; [auto 10|done]. }
  destruct (q <=? 0) eqn:Hq.
  { apply Z.leb_le in Hq. left; split; [auto 10|done]. }
  apply Z.leb_gt in Hq.
  assert (pr <= s)%Q as Hle.
  { apply Qnot_lt_le. intros H. apply Qlt_bool_lt in H. congruence. }
  destruct (int64 q) eqn:Hq64; cbn [negb]; [|left; split; [auto 10|done]].
  unfold sql_insert.
  destruct (int64 (next_rowid db)) eqn:Hr64; cbn [negb]; [|left; split; [auto 10|done]].
  unfold chk_profit. cbn [profit sales].
  pose proof Hle as Hb. apply Qle_bool_iff in Hb. rewrite Hb.
  right. done.
Qed.

(** C10. On an id that no record has, an update whose SET clause is not
    empty, names only columns of the table and binds only integers of the
    signed 64-bit range (the id included) returns true and leaves the
    store as it was: a true result does not tell that a record was
    modified. *)
Theorem update_missing_id_returns_true db (record_id : Z) (updates : list assignment) :
  table db !! record_id = None →
  updates ≠ [] →
  forallb known_column updates = true →
  int64 record_id = true →
  forallb bound_int64 updates = true →
  update_sale_record None db record_id updates = (true, db).
Proof.
  intros Hnone Hne Hknown Hid Hbound. unfold update_sale_record, sql_update.
  destruct updates; [done|]. simpl is_nil. cbv iota.
  rewrite Hknown, Hid, Hbound, Hnone. done.
Qed.

Lemma update_missing_id_returns_true_witness :
  update_sale_record None init_database 7 [SetSales 10; SetQuantity 3] = (true, init_database).
Proof.
  apply update_missing_id_returns_true;
    [reflexivity | discriminate | reflexivity | reflexivity | reflexivity].
Defined.

(** Outside that range the bind fails and the call returns false, for a
    missing id as for any other. *)
Lemma update_out_of_range_returns_false db (record_id : Z) (updates : list assignment) :
  int64 record_id = false ∨ forallb bound_int64 updates = false →
  update_sale_record None db record_id updates = (false, db).
Proof.
  intros Hout. unfold update_sale_record, sql_update.
  destruct (is_nil updates); [done|].
  destruct (forallb known_column updates); [|done]. cbn [negb].
  destruct Hout as [-> | ->]; [done|]. by rewrite andb_false_r.
Qed.

(** C4. A candidate whose product is three spaces passes the validation
    of [add_sale_record]: the call succeeds and one record is persisted,
    with the empty label as its product. *)
Theorem blank_product_is_persisted :
  let res := add_sale_record None 0 init_database (mkDate 2024 1 1) "   " "Ann" 100 20 1 in
  strip "   " = "" ∧
  res.1 = (true, "Sale record #1 added successfully") ∧
  record_count res.2 = 1%nat ∧
  product <$> table res.2 !! 1 = Some "".
Proof. by vm_compute. Qed.

End Store.

Section Histories.

Implicit Types (db : Database) (t : gmap Z SaleRecord) (r : SaleRecord).

Lemma add_sale_record_step fault now db d p c s pr q :
  table_step (table db) (table (add_sale_record fault now db d p c s pr q).2).
Proof.
  unfold add_sale_record.
  repeat (case_match; simpl; try apply step_same).
  unfold sql_insert in *. repeat case_match; simplify_eq. simpl.
  rewrite <-(delete_id (table db) (next_rowid db)) at 2 by apply next_rowid_fresh.
  by apply (step_put _ _ (mkSale _ _ _ _ _ _ _ _)).
Qed.

Lemma update_sale_record_step fault db i u :
  table_step (table db) (table (update_sale_record fault db i u).2).
Proof.
  unfold update_sale_record, sql_update.
  repeat (case_match; simpl; simplify_eq; try apply step_same).
  simpl. apply step_put. by apply negb_false_iff.
Qed.

Lemma delete_sale_record_step fault db i :
  table_step (table db) (table (delete_sale_record fault db i).2).
Proof.
  unfold delete_sale_record, sql_delete.
  repeat (case_match; simpl; simplify_eq; try apply step_same).
  simpl. apply step_delete.
Qed.

Lemma run_call_step db c : table_step (table db) (table (run_call db c)).
Proof.
  destruct c; simpl;
    auto using add_sale_record_step, update_sale_record_step, delete_sale_record_step.
Qed.

Lemma table_step_Forall (P : Z → SaleRecord → Prop) t t' :
  (∀ r, chk_profit r = true → P (id r) r) →
  table_step t t' → map_Forall P t → map_Forall P t'.
Proof.
  intros HP [|k|k r Hr] Ht; [done| |].
  - by apply map_Forall_delete.
  - apply map_Forall_insert_2; [by apply HP|by apply map_Forall_delete].
Qed.

Lemma reachable_Forall (P : Z → SaleRecord → Prop) db :
  (∀ r, chk_profit r = true → P (id r) r) →
  reachable db → map_Forall P (table db).
Proof.
  intros HP. induction 1 as [|db c _ IH].
  - apply map_Forall_empty.
  - eapply table_step_Forall; eauto using run_call_step.
Qed.

Lemma reachable_consistent db : reachable db → consistent db.
Proof. apply reachable_Forall. done. Qed.

Lemma reachable_run_calls cs : reachable (run_calls cs).
Proof.
  unfold run_calls. induction cs as [|c cs IH] using rev_ind.
  - constructor.
  - rewrite foldl_app. simpl. by constructor.
Qed.

Lemma elem_of_records db r : r ∈ records db ↔ ∃ k, table db !! k = Some r.
Proof.
  unfold records. rewrite list_elem_of_fmap. split.
  - intros [[k x] [-> H]]. exists k. by apply elem_of_map_to_list.
  - intros [k H]. exists (k, r). split; [done|by apply elem_of_map_to_list].
Qed.

(** C7. In every store state reached from the empty store by calls of
    [add_sale_record], [update_sale_record] and [delete_sale_record],
    every persisted record has profit at most sales. *)
Theorem profit_le_sales_invariant db r :
  reachable db → r ∈ records db → (profit r <= sales r)%Q.
Proof.
  intros Hreach [k Hk]%elem_of_records.
  eapply (reachable_Forall (λ _ r, (profit r <= sales r)%Q)) in Hreach.
  - by apply (Hreach k r).
  - intros r'. apply chk_profit_le.
Qed.

Lemma one_row_db_reachable : reachable one_row_db.
Proof.
  exact (reachable_call init_database
           (CallAdd None 5 (mkDate 2024 1 1) "Widget" "Ann" 100 20 2) reachable_init).
Qed.

Lemma profit_le_sales_invariant_witness :
  reachable one_row_db ∧ widget_sale ∈ records one_row_db ∧
  (profit widget_sale <= sales widget_sale)%Q.
Proof.
  assert (widget_sale ∈ records one_row_db) as Hin.
  { apply elem_of_records. exists 1. by vm_compute. }
  split_and!; [exact one_row_db_reachable | exact Hin |].
  exact (profit_le_sales_invariant one_row_db widget_sale one_row_db_reachable Hin).
Defined.

End Histories.

Section Delete.

Implicit Types (db : Database) (r : SaleRecord).

Lemma elem_of_select_all db r : r ∈ select_all db ↔ r ∈ records db.
Proof. unfold select_all, records. by rewrite merge_sort_Permutation. Qed.

Lemma elem_of_fetch_all db r :
  r ∈ data (get_all_sales None db) ↔ ∃ k, table db !! k = Some r.
Proof. simpl. by rewrite elem_of_select_all, elem_of_records. Qed.

Lemma elem_of_fetch_deleted db i r :
  r ∈ data (get_all_sales None (mkDb (delete i (table db)) (sqlite_sequence db)))
  ↔ ∃ k, k ≠ i ∧ table db !! k = Some r.
Proof.
  rewrite elem_of_fetch_all. simpl. split.
  - intros [k [Hne Hk]%lookup_delete_Some]. eauto.
  - intros (k & Hne & Hk). exists k. apply lookup_delete_Some. eauto.
Qed.

(** C9. Deleting an id that no record has returns false and leaves the
    store unchanged. Deleting the id of a record returns true, lowers the
    record count by exactly one, leaves every other id as it was, and the
    next fetch of all records holds exactly the former records but the
    deleted one. *)
Theorem delete_sale_record_spec db (record_id : Z) :
  consistent db →
  let res := delete_sale_record None db record_id in
  match table db !! record_id with
  | None => res = (false, db)
  | Some r =>
      res.1 = true ∧
      S (record_count res.2) = record_count db ∧
      table res.2 !! record_id = None ∧
      (∀ k, k ≠ record_id → table res.2 !! k = table db !! k) ∧
      ¬ (r ∈ data (get_all_sales None res.2)) ∧
      (∀ x, (x ∈ data (get_all_sales None res.2))
            ↔ (x ∈ data (get_all_sales None db) ∧ id x ≠ record_id))
  end.
Proof.
  intros Hc. unfold delete_sale_record, sql_delete. cbv zeta.
  destruct (table db !! record_id) as [r|] eqn:Hr; [|done].
  cbn [fst snd]. split_and!.
  - done.
  - unfold record_count. simpl. rewrite map_size_delete, Hr.
    assert (size (table db) ≠ 0%nat); [|lia].
    apply map_size_non_empty_iff. intros E. by rewrite E, lookup_empty in Hr.
  - apply lookup_delete_eq.
  - intros k Hk. by apply lookup_delete_ne.
  - rewrite elem_of_fetch_deleted. intros (k & Hne & Hk).
    apply Hc in Hk. apply Hc in Hr. congruence.
  - intros x. rewrite elem_of_fetch_deleted, elem_of_fetch_all. split.
    + intros (k & Hne & Hk). split; [eauto|].
      apply Hc in Hk. congruence.
    + intros [[k Hk] Hne]. exists k. split; [|done].
      apply Hc in Hk. congruence.
Qed.

End Delete.

Lemma one_row_db_consistent : consistent one_row_db.
Proof. unfold consistent. apply (bool_decide_unpack _). by vm_compute. Qed.

Lemma delete_sale_record_spec_witness :
  consistent one_row_db ∧
  let res := delete_sale_record None one_row_db 1 in
  match table one_row_db !! 1 with
  | None => res = (false, one_row_db)
  | Some r =>
      res.1 = true ∧
      S (record_count res.2) = record_count one_row_db ∧
      table res.2 !! 1 = None ∧
      (∀ k, k ≠ 1 → table res.2 !! k = table one_row_db !! k) ∧
      ¬ (r ∈ data (get_all_sales None res.2)) ∧
      (∀ x, (x ∈ data (get_all_sales None res.2))
            ↔ (x ∈ data (get_all_sales None one_row_db) ∧ id x ≠ 1))
  end.
Proof.
  split; [exact one_row_db_consistent|].
  exact (delete_sale_record_spec one_row_db 1 one_row_db_consistent).
Defined.

Section Sums.

Global Instance Qsum_perm : Proper ((≡ₚ) ==> Qeq) Qsum.
Proof.
  intros l1 l2 Hp. induction Hp as [|x l1 l2 _ IH|x y l|l1 l2 l3 _ IH1 _ IH2]; simpl.
  - reflexivity.
  - by rewrite IH.
  - ring.
  - by rewrite IH1.
Qed.

Global Instance Zsum_perm : Proper ((≡ₚ) ==> (=)) Zsum.
Proof.
  intros l1 l2 Hp. induction Hp as [|x l1 l2 _ IH|x y l|l1 l2 l3 _ IH1 _ IH2]; simpl; lia.
Qed.

Lemma Qsum_app l1 l2 : (Qsum (l1 ++ l2) == Qsum l1 + Qsum l2)%Q.
Proof. induction l1 as [|x l1 IH]; simpl; [ring|rewrite IH; ring]. Qed.

Lemma Zsum_app l1 l2 : Zsum (l1 ++ l2) = Zsum l1 + Zsum l2.
Proof. induction l1 as [|x l1 IH]; simpl; lia. Qed.

Lemma wrap64_add_l x y : wrap64 (wrap64 x + y) = wrap64 (x + y).
Proof.
  unfold wrap64.
  replace ((x + 2 ^ 63) mod 2 ^ 64 - 2 ^ 63 + y + 2 ^ 63)
    with ((x + 2 ^ 63) mod 2 ^ 64 + y) by lia.
  rewrite Zplus_mod_idemp_l. do 2 f_equal. lia.
Qed.

Lemma wrap64_add_r x y : wrap64 (x + wrap64 y) = wrap64 (x + y).
Proof. by rewrite Z.add_comm, wrap64_add_l, Z.add_comm. Qed.

Lemma wrap64_id z : int64 z = true → wrap64 z = z.
Proof.
  intros Hz%int64_range. unfold wrap64. rewrite Z.mod_small; lia.
Qed.

Lemma wrap64_Zsum_map (l : list Z) : wrap64 (Zsum (map wrap64 l)) = wrap64 (Zsum l).
Proof.
  induction l as [|x l IH]; [done|].
  change (wrap64 (wrap64 x + Zsum (map wrap64 l)) = wrap64 (x + Zsum l)).
  by rewrite wrap64_add_l, <-(wrap64_add_r x (Zsum (map wrap64 l))), IH, wrap64_add_r.
Qed.

Lemma Zsum_quantity_nonneg (l : list SaleRecord) :
  (∀ r, r ∈ l → 0 ≤ quantity r) → 0 ≤ Zsum (map quantity l).
Proof.
  induction l as [|x l IH]; intros Hq; [done|].
  change (0 ≤ quantity x + Zsum (map quantity l)).
  assert (0 ≤ quantity x) by apply Hq, list_elem_of_here.
  assert (0 ≤ Zsum (map quantity l)); [|lia].
  apply IH. intros r Hr. by apply Hq, list_elem_of_further.
Qed.

Lemma Zsum_filter_le (p : SaleRecord → bool) (l : list SaleRecord) :
  (∀ r, r ∈ l → 0 ≤ quantity r) →
  Zsum (map quantity (List.filter p l)) ≤ Zsum (map quantity l).
Proof.
  induction l as [|x l IH]; intros Hq; [done|].
  assert (0 ≤ quantity x) by apply Hq, list_elem_of_here.
  assert (Zsum (map quantity (List.filter p l)) ≤ Zsum (map quantity l)) as Hle.
  { apply IH. intros r Hr. by apply Hq, list_elem_of_further. }
  cbn [List.filter]. destruct (p x).
  - change (quantity x + Zsum (map quantity (List.filter p l))
            ≤ quantity x + Zsum (map quantity l)). lia.
  - change (Zsum (map quantity (List.filter p l)) ≤ quantity x + Zsum (map quantity l)). lia.
Qed.

End Sums.

Section Aggregator.

Context `{Countable K} (key : SaleRecord → K).

Implicit Types (df : list SaleRecord) (g : gmap K Agg) (r : SaleRecord) (a : Agg).

Lemma groupby_snoc df r :
  groupby key (df ++ [r])
  = <[key r := agg_add (default agg_zero (groupby key df !! key r)) r]> (groupby key df).
Proof. unfold groupby. by rewrite foldl_app. Qed.

(** The values of a map after one accumulator was replaced. *)
Lemma values_upsert g k a :
  map snd (map_to_list (<[k := a]> g)) ≡ₚ a :: map snd (map_to_list (delete k g)) ∧
  map snd (map_to_list g)
    ≡ₚ from_option (λ b, [b]) [] (g !! k) ++ map snd (map_to_list (delete k g)).
Proof.
  split.
  - rewrite <-insert_delete_eq, map_to_list_insert by apply lookup_delete_eq. done.
  - destruct (g !! k) as [b|] eqn:E; simpl.
    + rewrite <-(insert_delete_id g k b) at 1 by done.
      rewrite map_to_list_insert by apply lookup_delete_eq. done.
    + by rewrite delete_id.
Qed.

Lemma group_of_snoc k df r :
  group_of key k (df ++ [r])
  = group_of key k df ++ (if bool_decide (key r = k) then [r] else []).
Proof. unfold group_of. rewrite List.filter_app. simpl. by case_bool_decide. Qed.

(** The accumulator of a key is the fold of its rows, in frame order. *)
Lemma groupby_lookup df k :
  groupby key df !! k =
    match group_of key k df with
    | [] => None
    | l => Some (foldl agg_add agg_zero l)
    end.
Proof.
  induction df as [|r df IH] using rev_ind; [done|].
  rewrite groupby_snoc, group_of_snoc.
  case_bool_decide as Hk.
  - subst k. rewrite lookup_insert_eq, IH.
    destruct (group_of key (key r) df) as [|x l]; simpl; [done|].
    rewrite foldl_app. simpl. by destruct (l ++ [r]) eqn:E; [destruct l|].
  - rewrite lookup_insert_ne, app_nil_r by done. apply IH.
Qed.

Lemma fold_agg_add (l : list SaleRecord) a :
  let b := foldl agg_add a l in
  (agg_sales b == agg_sales a + Qsum (map sales l))%Q ∧
  (agg_profit b == agg_profit a + Qsum (map profit l))%Q ∧
  wrap64 (agg_quantity b) = wrap64 (agg_quantity a + Zsum (map quantity l)) ∧
  agg_count b = agg_count a + Z.of_nat (length l).
Proof.
  revert a. induction l as [|r l IH]; intros a; simpl.
  - split_and!; [ring|ring|f_equal; lia|lia].
  - destruct (IH (agg_add a r)) as (H1 & H2 & H3 & H4). simpl in *.
    rewrite H1, H2, H3, H4. split_and!; [ring|ring| |lia].
    rewrite wrap64_add_l. f_equal. lia.
Qed.

(** The quantity of a row is the [int64] sum of the quantities of its
    records. *)
Lemma fold_agg_quantity x (l : list SaleRecord) :
  agg_quantity (foldl agg_add agg_zero (x :: l)) = wrap64 (Zsum (map quantity (x :: l))).
Proof.
  induction l as [|y l IH] using rev_ind.
  - cbn. f_equal. lia.
  - rewrite app_comm_cons, foldl_app. cbn [foldl agg_add agg_quantity] in IH |- *.
    rewrite IH, wrap64_add_l, map_app, Zsum_app. cbn. f_equal. lia.
Qed.

(** One more row moves each column total by that row's value. *)
Lemma groupby_totals df :
  let vals := map snd (map_to_list (groupby key df)) in
  (Qsum (map agg_sales vals) == Qsum (map sales df))%Q ∧
  (Qsum (map agg_profit vals) == Qsum (map profit df))%Q ∧
  Zsum (map agg_count vals) = Z.of_nat (length df).
Proof.
  induction df as [|r df IH] using rev_ind.
  { unfold groupby. simpl. rewrite map_to_list_empty. simpl. split_and!; reflexivity. }
  cbv zeta in *. destruct IH as (IH1 & IH2 & IH4).
  rewrite groupby_snoc.
  set (g := groupby key df) in *. set (k := key r).
  destruct (values_upsert g k (agg_add (default agg_zero (g !! k)) r)) as [Hnew Hold].
  rewrite Hold in IH1, IH2, IH4. rewrite Hnew. clear Hnew Hold.
  rewrite !map_app, ?Qsum_app, ?Zsum_app, ?length_app in *.
  rewrite <-IH1, <-IH2.
  replace (Z.of_nat (length df + length [r])) with (Z.of_nat (length df) + 1)
    by (simpl; lia).
  rewrite <-IH4.
  destruct (g !! k) as [b|]; simpl; split_and!; first [ring | lia].
Qed.

(** The member lists of pairwise different keys that cover the frame are
    a partition of the frame. *)
Lemma group_of_cons_ne k r df : key r ≠ k → group_of key k (r :: df) = group_of key k df.
Proof. intros Hne. unfold group_of. cbn. by rewrite bool_decide_eq_false_2. Qed.

Lemma group_of_cons_eq r df : group_of key (key r) (r :: df) = r :: group_of key (key r) df.
Proof. unfold group_of. cbn. by rewrite bool_decide_eq_true_2. Qed.

Lemma groups_cons_ne (ks : list K) r df :
  key r ∉ ks →
  (λ k, group_of key k (r :: df)) <$> ks = (λ k, group_of key k df) <$> ks.
Proof.
  intros Hr. apply Forall_fmap_ext_1, Forall_forall. intros k Hk.
  apply group_of_cons_ne. by intros <-.
Qed.

Lemma groups_nil (ks : list K) : concat ((λ k, group_of key k []) <$> ks) = [].
Proof. induction ks as [|k ks IH]; [done|]. rewrite fmap_cons. cbn [concat]. by rewrite IH. Qed.

Lemma groups_partition (ks : list K) df :
  NoDup ks → (∀ r, r ∈ df → key r ∈ ks) →
  concat ((λ k, group_of key k df) <$> ks) ≡ₚ df.
Proof.
  intros Hnd. induction df as [|r df IH]; intros Hin.
  { by rewrite groups_nil. }
  assert (key r ∈ ks) as Hr by apply Hin, list_elem_of_here.
  apply list_elem_of_split in Hr as (ks1 & ks2 & Hks).
  assert (concat ((λ k, group_of key k df) <$> ks) ≡ₚ df) as IH'.
  { apply IH. intros x Hx. by apply Hin, list_elem_of_further. }
  subst ks. apply NoDup_app in Hnd as (_ & Hdisj & Hnd2).
  apply NoDup_cons in Hnd2 as [Hr2 _].
  assert (key r ∉ ks1) as Hr1.
  { intros H1. apply (Hdisj _ H1), list_elem_of_here. }
  rewrite fmap_app, fmap_cons, concat_app in IH' |- *. cbn [concat] in *.
  rewrite !groups_cons_ne, group_of_cons_eq by done.
  cbn [app]. rewrite <-Permutation_middle. apply perm_skip, IH'.
Qed.

Context `{KeyOrder K}.

Lemma aggregate_perm df : aggregate key df ≡ₚ map_to_list (groupby key df).
Proof. apply merge_sort_Permutation. Qed.

Lemma elem_of_aggregate df k a :
  (k, a) ∈ aggregate key df ↔ groupby key df !! k = Some a.
Proof. by rewrite aggregate_perm, elem_of_map_to_list. Qed.

Lemma aggregate_keys_NoDup df : NoDup (aggregate key df).*1.
Proof. rewrite aggregate_perm. apply NoDup_fst_map_to_list. Qed.

Lemma aggregate_keys df k :
  k ∈ (aggregate key df).*1 ↔ ∃ r, r ∈ df ∧ key r = k.
Proof.
  rewrite list_elem_of_fmap. split.
  - intros [[k' a] [-> Hka]]. cbn. apply elem_of_aggregate in Hka.
    rewrite groupby_lookup in Hka.
    destruct (group_of key k' df) as [|x l] eqn:E; [done|].
    assert (In x (group_of key k' df)) as Hx by (rewrite E; by left).
    apply filter_In in Hx as [Hx Hk]. apply bool_decide_eq_true in Hk.
    exists x. split; [by apply list_elem_of_In|done].
  - intros (r & Hr & <-).
    pose proof (groupby_lookup df (key r)) as Hl.
    destruct (group_of key (key r) df) as [|x l] eqn:E.
    + exfalso. apply list_elem_of_In in Hr.
      assert (In r (group_of key (key r) df)) as Hin.
      { apply filter_In. split; [done|]. by apply bool_decide_eq_true. }
      by rewrite E in Hin.
    + eexists (key r, _). split; [done|]. by apply elem_of_aggregate.
Qed.

(** The row of a key: its count and its [int64] quantity are those of the
    records with that key. *)
Lemma aggregate_row df k a :
  (k, a) ∈ aggregate key df →
  group_of key k df ≠ [] ∧
  agg_count a = Z.of_nat (length (group_of key k df)) ∧
  agg_quantity a = wrap64 (Zsum (map quantity (group_of key k df))).
Proof.
  intros Hka. apply elem_of_aggregate in Hka. rewrite groupby_lookup in Hka.
  destruct (group_of key k df) as [|x l] eqn:E; [done|]. injection Hka as <-.
  destruct (fold_agg_add (x :: l) agg_zero) as (_ & _ & _ & F4). cbv zeta in F4.
  split_and!; [done| |apply fold_agg_quantity].
  cbn [foldl] in F4 |- *. rewrite F4. cbn. lia.
Qed.

Lemma Zsum_concat {A B} (g : B → Z) (f : A → list B) (ks : list A) :
  Zsum (map g (concat (f <$> ks))) = Zsum (map (λ k, Zsum (map g (f k))) ks).
Proof.
  induction ks as [|k ks IH]; [done|]. rewrite fmap_cons. cbn [concat map].
  rewrite map_app, Zsum_app, IH. done.
Qed.

Lemma aggregate_quantities df :
  map (λ row, agg_quantity row.2) (aggregate key df)
  = map wrap64 (map (λ k, Zsum (map quantity (group_of key k df))) (aggregate key df).*1).
Proof.
  rewrite !map_map. apply Forall_fmap_ext_1, Forall_forall. intros [k a] Hka.
  cbn. by destruct (aggregate_row df k a Hka) as (_ & _ & ->).
Qed.



End Aggregator.

Section Ranking.

Context {A : Type} (metric : A → Q).

Lemma by_metric_le a b : by_metric metric a b ↔ (metric b <= metric a)%Q.
Proof. unfold by_metric. rewrite Is_true_true. apply Qle_bool_iff. Qed.

Lemma insert_desc_perm x (l : list A) : insert_desc metric x l ≡ₚ x :: l.
Proof.
  induction l as [|y l IH]; [done|]. cbn.
  destruct (Qlt_bool (metric x) (metric y)); [|done].
  rewrite IH. apply Permutation_swap.
Qed.

Lemma sort_desc_perm (rows : list A) : sort_desc metric rows ≡ₚ rows.
Proof.
  induction rows as [|x rows IH]; [done|]. cbn.
  by rewrite insert_desc_perm, IH.
Qed.

Lemma insert_desc_sorted x (l : list A) :
  StronglySorted (by_metric metric) l →
  StronglySorted (by_metric metric) (insert_desc metric x l).
Proof.
  induction 1 as [|y l Hs IH Hy]; cbn.
  - by repeat constructor.
  - destruct (Qlt_bool (metric x) (metric y)) eqn:E.
    + constructor; [done|].
      rewrite insert_desc_perm. constructor; [|done].
      apply by_metric_le, Qlt_le_weak. by apply Qlt_bool_lt.
    + assert (metric y <= metric x)%Q as Hyx.
      { apply Qnot_lt_le. intros H. apply Qlt_bool_lt in H. congruence. }
      constructor; [by constructor|].
      constructor; [by apply by_metric_le|].
      eapply Forall_impl; [exact Hy|]. intros z Hz. apply by_metric_le.
      apply by_metric_le in Hz. by eapply Qle_trans.
Qed.

Lemma nlargest_sorted (rows : list A) :
  StronglySorted (by_metric metric) (sort_desc metric rows).
Proof.
  induction rows as [|x rows IH]; [constructor|]. cbn. by apply insert_desc_sorted.
Qed.

(** Rows of one metric value keep the order they had. *)
Lemma insert_desc_stable (v : Q) x (l : list A) :
  List.filter (λ a, Qeq_bool (metric a) v) (insert_desc metric x l)
  = List.filter (λ a, Qeq_bool (metric a) v) (x :: l).
Proof.
  induction l as [|y l IH]; [done|]. cbn [insert_desc].
  destruct (Qlt_bool (metric x) (metric y)) eqn:E; [|done].
  apply Qlt_bool_lt in E.
  cbn [List.filter] in *. rewrite IH.
  destruct (Qeq_bool (metric x) v) eqn:Ex; [|done].
  destruct (Qeq_bool (metric y) v) eqn:Ey; [|done].
  apply Qeq_bool_iff in Ex, Ey. rewrite Ex, Ey in E. by apply Qlt_irrefl in E.
Qed.

Lemma sort_desc_stable (v : Q) (rows : list A) :
  List.filter (λ a, Qeq_bool (metric a) v) (sort_desc metric rows)
  = List.filter (λ a, Qeq_bool (metric a) v) rows.
Proof.
  induction rows as [|x rows IH]; [done|]. cbn [sort_desc foldr].
  rewrite insert_desc_stable. cbn [List.filter]. fold (sort_desc metric rows).
  by rewrite IH.
Qed.

Lemma nlargest_length (n : nat) (rows : list A) :
  (length (nlargest n metric rows) ≤ n)%nat.
Proof. unfold nlargest. rewrite length_take. lia. Qed.

Lemma nlargest_exact_length (n : nat) (rows : list A) :
  length (nlargest n metric rows) = (n `min` length rows)%nat.
Proof. unfold nlargest. by rewrite length_take, sort_desc_perm. Qed.


End Ranking.

(** The two rankings of the dashboard hold at most ten rows. *)
Lemma rankings_at_most_ten (df : list SaleRecord) :
  (length (product_sales df) ≤ 10)%nat ∧ (length (customer_sales df) ≤ 10)%nat.
Proof.
  unfold product_sales, customer_sales. rewrite length_map.
  split; apply nlargest_length.
Qed.

Section Buckets.

Lemma dayofweek_range y m d : 0 ≤ dayofweek y m d ≤ 6.
Proof.
  unfold dayofweek. cbv zeta.
  match goal with |- _ ≤ ?a `mod` 7 ≤ _ => pose proof (Z.mod_pos_bound a 7) end. lia.
Qed.

Lemma month_cases m : 1 ≤ m ≤ 12 →
  m = 1 ∨ m = 2 ∨ m = 3 ∨ m = 4 ∨ m = 5 ∨ m = 6 ∨
  m = 7 ∨ m = 8 ∨ m = 9 ∨ m = 10 ∨ m = 11 ∨ m = 12.
Proof. lia. Qed.

Lemma day_of_year_range d :
  valid_date d → 1 ≤ get_day_of_year (year d) (month d) (day d) ≤ 366.
Proof.
  intros [Hm Hd]. unfold get_day_of_year.
  destruct (month_cases _ Hm) as [E|[E|[E|[E|[E|[E|[E|[E|[E|[E|[E|E]]]]]]]]]]];
    rewrite E in *; unfold days_in_month in Hd; simpl in *;
    destruct (is_leap_year (year d)); simpl in *; lia.
Qed.

Lemma week_of_year_range y m d :
  1 ≤ get_day_of_year y m d ≤ 366 → 1 ≤ get_week_of_year y m d ≤ 53.
Proof.
  intros Hdoy. unfold get_week_of_year.
  pose proof (dayofweek_range y m d) as Hdow.
  set (doy := get_day_of_year y m d) in *. set (dow := dayofweek y m d) in *.
  cbv zeta. set (est := doy - 1 - dow + 3).
  destruct (est <? 0) eqn:Hneg.
  - case_match; lia.
  - apply Z.ltb_ge in Hneg.
    assert (0 ≤ est / 7 ≤ 52).
    { split; [apply Z.div_pos; lia|].
      assert (est / 7 < 53); [apply Z.div_lt_upper_bound; lia|lia]. }
    case_match; lia.
Qed.

Lemma iso_week_range d : valid_date d → 1 ≤ iso_week d ≤ 53.
Proof. intros Hv. by apply week_of_year_range, day_of_year_range. Qed.

Lemma quarter_range d : valid_date d → 1 ≤ quarter d ≤ 4.
Proof.
  intros [Hm _]. unfold quarter.
  assert (0 ≤ (month d - 1) / 3 < 4); [|lia].
  split; [apply Z.div_pos; lia|apply Z.div_lt_upper_bound; lia].
Qed.

(** From here on [lia] also decides goals with division and remainder
    by a constant. *)
Ltac Zify.zify_post_hook ::= Z.to_euclidean_division_equations.

Lemma is_leap_year_spec y :
  is_leap_year y = true ↔ (y mod 4 = 0 ∧ y mod 100 ≠ 0) ∨ y mod 400 = 0.
Proof.
  unfold is_leap_year.
  rewrite orb_true_iff, andb_true_iff, negb_true_iff, !Z.eqb_eq, Z.eqb_neq. tauto.
Qed.

Lemma days_before_next_year y :
  days_before_year (y + 1) = days_before_year y + (if is_leap_year y then 366 else 365).
Proof.
  unfold days_before_year.
  destruct (is_leap_year y) eqn:E.
  - apply is_leap_year_spec in E. replace (y + 1 - 1) with y by lia. lia.
  - assert (¬ ((y mod 4 = 0 ∧ y mod 100 ≠ 0) ∨ y mod 400 = 0)) as H.
    { rewrite <-is_leap_year_spec. congruence. }
    replace (y + 1 - 1) with y by lia. lia.
Qed.

Lemma leap_day_count y :
  y / 4 - y / 100 + y / 400
  = (y - 1) / 4 - (y - 1) / 100 + (y - 1) / 400 + (if is_leap_year y then 1 else 0).
Proof.
  pose proof (days_before_next_year y) as H. unfold days_before_year in H.
  replace (y + 1 - 1) with y in H by lia.
  destruct (is_leap_year y); lia.
Qed.

Lemma dayofweek_weekday y m d :
  1 ≤ m ≤ 12 → dayofweek y m d = weekday (toordinal (mkDate y m d)).
Proof.
  intros Hm. unfold dayofweek, weekday, toordinal, get_day_of_year, days_before_year.
  cbn [year month day].
  pose proof (leap_day_count y) as Hl.
  assert (m = 1 ∨ m = 2 ∨ m = 3 ∨ m = 4 ∨ m = 5 ∨ m = 6 ∨
          m = 7 ∨ m = 8 ∨ m = 9 ∨ m = 10 ∨ m = 11 ∨ m = 12) as Hc by lia.
  destruct Hc as [E|[E|[E|[E|[E|[E|[E|[E|[E|[E|[E|E]]]]]]]]]]]; subst m;
    cbn [Z.ltb Z.compare Pos.compare Pos.compare_cont sakamoto_arr month_offset andb];
    destruct (is_leap_year y); cbn [andb];
    set (a := (y - 1) / 4) in *; set (b := (y - 1) / 100) in *; set (c := (y - 1) / 400) in *;
    try (set (a' := y / 4) in *; set (b' := y / 100) in *; set (c' := y / 400) in * );
    lia.
Qed.

Lemma weekday_range n : 0 ≤ weekday n ≤ 6.
Proof. unfold weekday. lia. Qed.

Lemma iso_week_iso_8601 d : valid_date d → iso_week d = iso_week_spec d.
Proof.
  intros [Hm Hd]. destruct d as [y m d]. cbn [year month day] in *.
  unfold iso_week, iso_week_spec, get_week_of_year. cbn [year month day].
  rewrite dayofweek_weekday by done.
  set (n := toordinal (mkDate y m d)).
  pose proof (weekday_range n) as Hw. set (dow := weekday n) in *.
  assert (n = days_before_year y + get_day_of_year y m d) as Hn by done.
  pose proof (days_before_next_year y) as Hnext.
  pose proof (days_before_next_year (y - 1)) as Hprev.
  replace (y - 1 + 1) with y in Hprev by lia.
  set (B := days_before_year y) in *.
  set (Bn := days_before_year (y + 1)) in *.
  set (Bp := days_before_year (y - 1)) in *.
  cbv zeta.
  unfold get_day_of_year, days_in_month in *.
  assert (m = 1 ∨ m = 2 ∨ m = 3 ∨ m = 4 ∨ m = 5 ∨ m = 6 ∨
          m = 7 ∨ m = 8 ∨ m = 9 ∨ m = 10 ∨ m = 11 ∨ m = 12) as Hc by lia.
  destruct Hc as [E|[E|[E|[E|[E|[E|[E|[E|[E|[E|[E|E]]]]]]]]]]]; subst m;
    cbn [Z.ltb Z.eqb Z.compare Pos.compare Pos.compare_cont Pos.eqb month_offset andb orb] in *;
    destruct (is_leap_year y); destruct (is_leap_year (y - 1));
    cbn [andb orb] in *;
    repeat match goal with
    | |- context [?a <? ?b] => destruct (Z.ltb_spec a b)
    | |- context [?a <=? ?b] => destruct (Z.leb_spec a b)
    | |- context [?a =? ?b] => destruct (Z.eqb_spec a b)
    end; cbn [andb orb]; try lia.
Qed.

(** ** Year-month and date tokens sort chronologically *)

Lemma zfill4_pretty y : 1000 ≤ y ≤ 9999 → zfill 4 (pretty y) = digits4 y.
Proof.
  intros Hy.
  assert (forallb (λ y, String.eqb (zfill 4 (pretty y)) (digits4 y)) (seqZ 1000 9000) = true)
    as Hall by (vm_compute; reflexivity).
  rewrite forallb_forall in Hall. apply String.eqb_eq, Hall.
  apply list_elem_of_In, elem_of_seqZ. lia.
Qed.

Lemma zfill2_pretty n : 1 ≤ n ≤ 31 → zfill 2 (pretty n) = digits2 n.
Proof.
  intros Hn.
  assert (forallb (λ n, String.eqb (zfill 2 (pretty n)) (digits2 n)) (seqZ 1 31) = true)
    as Hall by (vm_compute; reflexivity).
  rewrite forallb_forall in Hall. apply String.eqb_eq, Hall.
  apply list_elem_of_In, elem_of_seqZ. lia.
Qed.

Lemma digit_compare a b :
  0 ≤ a ≤ 9 → 0 ≤ b ≤ 9 → Ascii.compare (digit a) (digit b) = (a ?= b).
Proof.
  intros Ha Hb.
  assert (a = 0 ∨ a = 1 ∨ a = 2 ∨ a = 3 ∨ a = 4 ∨ a = 5 ∨ a = 6 ∨ a = 7 ∨ a = 8 ∨ a = 9)
    as Ca by lia.
  assert (b = 0 ∨ b = 1 ∨ b = 2 ∨ b = 3 ∨ b = 4 ∨ b = 5 ∨ b = 6 ∨ b = 7 ∨ b = 8 ∨ b = 9)
    as Cb by lia.
  destruct Ca as [->|[->|[->|[->|[->|[->|[->|[->|[->| ->]]]]]]]]];
  destruct Cb as [->|[->|[->|[->|[->|[->|[->|[->|[->| ->]]]]]]]]]; reflexivity.
Qed.

Lemma lex_compare_base (a1 a0 b1 b0 base : Z) :
  0 ≤ a0 < base → 0 ≤ b0 < base →
  lex (a1 ?= b1) (a0 ?= b0) = (a1 * base + a0 ?= b1 * base + b0).
Proof.
  intros Ha Hb. unfold lex.
  destruct (Z.compare_spec a1 b1) as [->|H|H].
  - symmetry. destruct (Z.compare_spec a0 b0); [apply Z.compare_eq_iff|apply Z.compare_lt_iff|apply Z.compare_gt_iff]; lia.
  - symmetry. apply Z.compare_lt_iff. nia.
  - symmetry. apply Z.compare_gt_iff. nia.
Qed.

Lemma append_String c (s t : string) : String c s +:+ t = String c (s +:+ t).
Proof. reflexivity. Qed.

Lemma append_empty (t : string) : "" +:+ t = t.
Proof. reflexivity. Qed.

Lemma digits2_compare a b s t :
  0 ≤ a ≤ 99 → 0 ≤ b ≤ 99 →
  String.compare (digits2 a +:+ s) (digits2 b +:+ t) = lex (a ?= b) (String.compare s t).
Proof.
  intros Ha Hb. unfold digits2. rewrite !append_String, !append_empty.
  cbn [String.compare].
  rewrite !digit_compare by lia.
  rewrite (Z.div_mod a 10), (Z.div_mod b 10) at 3 by lia.
  rewrite (Z.mul_comm 10 (a / 10)), (Z.mul_comm 10 (b / 10)).
  rewrite <-(lex_compare_base (a / 10) (a mod 10) (b / 10) (b mod 10) 10) by lia.
  unfold lex. by repeat case_match.
Qed.

Lemma lex_assoc c1 c2 c3 : lex c1 (lex c2 c3) = lex (lex c1 c2) c3.
Proof. by destruct c1. Qed.

Lemma digits4_compare a b s t :
  0 ≤ a ≤ 9999 → 0 ≤ b ≤ 9999 →
  String.compare (digits4 a +:+ s) (digits4 b +:+ t) = lex (a ?= b) (String.compare s t).
Proof.
  intros Ha Hb. unfold digits4. rewrite !append_String. cbn [String.compare].
  rewrite !digit_compare, digits2_compare by lia.
  repeat match goal with
  | |- context [match ?c with Eq => ?x | Lt => Lt | Gt => Gt end] =>
      change (match c with Eq => x | Lt => Lt | Gt => Gt end) with (lex c x)
  end.
  rewrite !lex_assoc.
  rewrite (lex_compare_base (a / 1000) (a / 100 mod 10) (b / 1000) (b / 100 mod 10) 10) by lia.
  rewrite (lex_compare_base _ (a mod 100) _ (b mod 100) 100) by lia.
  f_equal. f_equal; lia.
Qed.

Lemma ascii_compare_refl (c : Ascii.ascii) : Ascii.compare c c = Eq.
Proof. unfold Ascii.compare. apply N.compare_refl. Qed.

Lemma append_nil_r (s : string) : s +:+ "" = s.
Proof. induction s as [|c s IH]; [done|]. by rewrite append_String, IH. Qed.

Lemma append_assoc (s t u : string) : (s +:+ t) +:+ u = s +:+ (t +:+ u).
Proof. induction s as [|c s IH]; [done|]. by rewrite !append_String, IH. Qed.

Lemma lex_not_Gt a b c :
  lex (a ?= b) c ≠ Gt ↔ a < b ∨ (a = b ∧ c ≠ Gt).
Proof.
  unfold lex. destruct (Z.compare_spec a b) as [Hab|Hab|Hab].
  - split; [intros Hc; right; done | intros [Hlt | [_ Hc]]; [lia | done]].
  - split; [intros _; left; done | done].
  - split; [done | intros [Hlt | [Heq _]]; lia].
Qed.

Lemma Eq_not_Gt : Eq ≠ Gt ↔ True.
Proof. done. Qed.

Lemma compare_not_Gt a b : (a ?= b) ≠ Gt ↔ a ≤ b.
Proof. destruct (Z.compare_spec a b); split; intros; try lia; done. Qed.

Lemma leb_not_Gt (s t : string) : String.leb s t = true ↔ String.compare s t ≠ Gt.
Proof. unfold String.leb. by destruct (String.compare s t). Qed.

Lemma strftime_Ym_digits d :
  valid_date d → 1000 ≤ year d ≤ 9999 →
  strftime_Ym d = digits4 (year d) +:+ "-" +:+ digits2 (month d) +:+ "".
Proof.
  intros [Hm Hd] Hy. unfold strftime_Ym.
  by rewrite zfill4_pretty, zfill2_pretty, append_nil_r by lia.
Qed.

Lemma days_in_month_le y m : days_in_month y m ≤ 31.
Proof. unfold days_in_month. repeat case_match; lia. Qed.

Lemma strftime_Ymd_digits d :
  valid_date d → 1000 ≤ year d ≤ 9999 →
  strftime_Ymd d
  = digits4 (year d) +:+ "-" +:+ digits2 (month d) +:+ "-" +:+ digits2 (day d) +:+ "".
Proof.
  intros Hv Hy. unfold strftime_Ymd. rewrite strftime_Ym_digits by done.
  destruct Hv as [Hm Hd]. pose proof (days_in_month_le (year d) (month d)).
  rewrite zfill2_pretty by lia.
  by rewrite !append_assoc, !append_nil_r.
Qed.

(** The order of the Monthly tokens is the order of the months. *)
Lemma monthly_key_order (r r' : SaleRecord) :
  valid_date (order_date r) → 1000 ≤ year (order_date r) ≤ 9999 →
  valid_date (order_date r') → 1000 ≤ year (order_date r') ≤ 9999 →
  key_leb (period_col Monthly r) (period_col Monthly r') = true
  ↔ year (order_date r) < year (order_date r')
    ∨ (year (order_date r) = year (order_date r')
       ∧ month (order_date r) ≤ month (order_date r')).
Proof.
  intros Hv Hy Hv' Hy'. cbn [period_col]. unfold key_leb, bucket_key_order.
  rewrite leb_not_Gt, !strftime_Ym_digits by done.
  destruct Hv as [Hm _], Hv' as [Hm' _].
  rewrite digits4_compare by lia. rewrite !append_String, !append_empty.
  cbn [String.compare]. rewrite ascii_compare_refl.
  rewrite digits2_compare by lia.
  rewrite !lex_not_Gt. cbn [String.compare]. rewrite Eq_not_Gt. lia.
Qed.

(** The order of the Daily tokens is the order of the dates. *)
Lemma daily_key_order (r r' : SaleRecord) :
  valid_date (order_date r) → 1000 ≤ year (order_date r) ≤ 9999 →
  valid_date (order_date r') → 1000 ≤ year (order_date r') ≤ 9999 →
  key_leb (period_col Daily r) (period_col Daily r') = true
  ↔ date_le (order_date r) (order_date r').
Proof.
  intros Hv Hy Hv' Hy'. cbn [period_col]. unfold key_leb, bucket_key_order, date_le.
  rewrite leb_not_Gt, !strftime_Ymd_digits by done.
  pose proof (days_in_month_le (year (order_date r)) (month (order_date r))).
  pose proof (days_in_month_le (year (order_date r')) (month (order_date r'))).
  destruct Hv as [Hm Hd], Hv' as [Hm' Hd'].
  rewrite digits4_compare by lia. rewrite !append_String, !append_empty.
  cbn [String.compare]. rewrite ascii_compare_refl.
  rewrite digits2_compare by lia.
  cbn [String.compare]. rewrite ascii_compare_refl.
  rewrite digits2_compare by lia.
  rewrite !lex_not_Gt. cbn [String.compare]. rewrite Eq_not_Gt. lia.
Qed.

(** C5. The Weekly key of a record is the ISO week number of its date (the
    week component pandas computes agrees with the ISO 8601 rule), an
    integer from 1 to 53 without the year, and the Quarterly key is the
    quarter from 1 to 4; records with equal week (quarter) numbers share
    the key whatever their years. The Monthly key is the year-month text,
    the Yearly key the year, the Daily key the ISO date text; for four-digit
    years (all a pandas timestamp can hold) the Monthly texts sort by year
    and month and the Daily texts sort by date. *)
Theorem period_bucket_keys (r : SaleRecord) :
  valid_date (order_date r) →
  let d := order_date r in
  (period_col Weekly r = KeyInt (iso_week d) ∧ 1 ≤ iso_week d ≤ 53 ∧
     iso_week d = iso_week_spec d) ∧
  (period_col Quarterly r = KeyInt (quarter d) ∧ 1 ≤ quarter d ≤ 4 ∧
     quarter d = (month d + 2) / 3) ∧
  period_col Monthly r = KeyText (strftime_Ym d) ∧
  period_col Yearly r = KeyInt (year d) ∧
  period_col Daily r = KeyText (strftime_Ymd d) ∧
  (∀ r', iso_week (order_date r') = iso_week d →
         period_col Weekly r' = period_col Weekly r) ∧
  (∀ r', quarter (order_date r') = quarter d →
         period_col Quarterly r' = period_col Quarterly r) ∧
  (∀ r', valid_date (order_date r') →
         1000 ≤ year d ≤ 9999 → 1000 ≤ year (order_date r') ≤ 9999 →
         (key_leb (period_col Monthly r) (period_col Monthly r') = true
          ↔ year d < year (order_date r')
            ∨ (year d = year (order_date r') ∧ month d ≤ month (order_date r')))) ∧
  (∀ r', valid_date (order_date r') →
         1000 ≤ year d ≤ 9999 → 1000 ≤ year (order_date r') ≤ 9999 →
         (key_leb (period_col Daily r) (period_col Daily r') = true
          ↔ date_le d (order_date r'))).
Proof.
  intros Hv d.
  pose proof (iso_week_range _ Hv) as Hw. pose proof (quarter_range _ Hv) as Hq.
  pose proof (iso_week_iso_8601 _ Hv) as Hiso.
  assert (quarter d = (month d + 2) / 3) as Hq3.
  { unfold quarter. replace (month d + 2) with (month d - 1 + 1 * 3) by lia.
    rewrite Z.div_add by lia. lia. }
  subst d. split_and!; try done; try lia.
  - simpl. by intros r' ->.
  - simpl. by intros r' ->.
  - intros r' Hv' Hy Hy'. by apply monthly_key_order.
  - intros r' Hv' Hy Hy'. by apply daily_key_order.
Qed.

End Buckets.

Section BucketExamples.

Lemma period_bucket_keys_witness :
  valid_date (order_date feb_2024_sale) ∧
  period_col Weekly feb_2024_sale = KeyInt 5 ∧
  period_col Weekly feb_2023_sale = period_col Weekly feb_2024_sale.
Proof.
  assert (valid_date (order_date feb_2024_sale)) as Hv by (by vm_compute).
  destruct (period_bucket_keys feb_2024_sale Hv) as ([Hw _] & _ & _ & _ & _ & Hsame & _).
  split_and!; [exact Hv | exact Hw | by apply Hsame].
Defined.

(** Two February sales of different years land in one weekly row and in
    one quarterly row, and in two monthly rows. *)
Lemma buckets_collide_across_years :
  map (λ row, (row.1.1, agg_count row.1.2)) (trend_data Weekly [feb_2023_sale; feb_2024_sale])
    = [(KeyInt 5, 2)] ∧
  map (λ row, (row.1.1, agg_count row.1.2)) (trend_data Quarterly [feb_2023_sale; feb_2024_sale])
    = [(KeyInt 1, 2)] ∧
  map (λ row, (row.1.1, agg_count row.1.2)) (trend_data Monthly [feb_2023_sale; feb_2024_sale])
    = [(KeyText "2023-02", 1); (KeyText "2024-02", 1)].
Proof. by vm_compute. Qed.

Lemma iso_week_samples :
  iso_week (mkDate 2024 12 30) = 1 ∧ iso_week (mkDate 2021 1 1) = 53 ∧
  iso_week (mkDate 2023 1 1) = 52 ∧ iso_week (mkDate 2020 12 31) = 53 ∧
  iso_week (mkDate 2024 2 1) = 5 ∧ iso_week (mkDate 2023 2 1) = 5.
Proof. by vm_compute. Qed.

End BucketExamples.

Section TextOrder.

Lemma ascii_compare_lt_trans a b c :
  Ascii.compare a b = Lt → Ascii.compare b c = Lt → Ascii.compare a c = Lt.
Proof. unfold Ascii.compare. rewrite !N.compare_lt_iff. lia. Qed.

Lemma string_compare_lt_trans s1 s2 s3 :
  String.compare s1 s2 = Lt → String.compare s2 s3 = Lt → String.compare s1 s3 = Lt.
Proof.
  revert s2 s3. induction s1 as [|a s1 IH]; intros [|b s2] [|c s3]; cbn; try done.
  destruct (Ascii.compare a b) eqn:Eab; try done;
    destruct (Ascii.compare b c) eqn:Ebc; try done.
  - apply Ascii.compare_eq_iff in Eab as ->. apply Ascii.compare_eq_iff in Ebc as ->.
    rewrite ascii_compare_refl. apply IH.
  - apply Ascii.compare_eq_iff in Eab as ->. by rewrite Ebc.
  - apply Ascii.compare_eq_iff in Ebc as <-. by rewrite Eab.
  - by rewrite (ascii_compare_lt_trans a b c).
Qed.

Lemma string_leb_trans s1 s2 s3 :
  String.leb s1 s2 = true → String.leb s2 s3 = true → String.leb s1 s3 = true.
Proof.
  unfold String.leb.
  destruct (String.compare s1 s2) eqn:E1; try done.
  { apply String.compare_eq_iff in E1 as ->. done. }
  destruct (String.compare s2 s3) eqn:E2; try done.
  { apply String.compare_eq_iff in E2 as <-. by rewrite E1. }
  by rewrite (string_compare_lt_trans s1 s2 s3).
Qed.

Lemma string_leb_refl (s : string) : String.leb s s = true.
Proof. by destruct (String.leb_total s s). Qed.

Lemma bucket_key_leb_total (a b : bucket_key) : key_leb a b = true ∨ key_leb b a = true.
Proof.
  destruct a as [s|x], b as [t|y]; cbn; auto.
  - apply String.leb_total.
  - rewrite !Z.leb_le. lia.
Qed.

Lemma bucket_key_leb_trans (a b c : bucket_key) :
  key_leb a b = true → key_leb b c = true → key_leb a c = true.
Proof.
  destruct a as [s|x], b as [t|y], c as [u|z]; cbn; try done.
  - apply string_leb_trans.
  - rewrite !Z.leb_le. lia.
Qed.

Lemma key_lt_int (x y : Z) : key_lt (KeyInt x) (KeyInt y) ↔ x < y.
Proof.
  unfold key_lt. cbn. rewrite Z.leb_le. split.
  - intros [Hle Hne]. assert (x ≠ y) by congruence. lia.
  - intros Hlt. split; [lia|]. intros [= ->]. lia.
Qed.

End TextOrder.

Section DateOrder.

Lemma date_le_refl a : date_le a a.
Proof. unfold date_le. lia. Qed.

Lemma date_le_trans a b c : date_le a b → date_le b c → date_le a c.
Proof. unfold date_le. lia. Qed.

Lemma date_le_antisym a b : date_le a b → date_le b a → a = b.
Proof.
  destruct a as [y m d], b as [y' m' d']. unfold date_le. cbn [year month day].
  intros H1 H2. f_equal; lia.
Qed.

Lemma date_le_total a b : date_le a b ∨ date_le b a.
Proof. unfold date_le. lia. Qed.

Lemma date_min_le a b : date_le (date_min a b) a ∧ date_le (date_min a b) b.
Proof.
  unfold date_min. destruct (date_leb a b) eqn:E.
  - apply date_leb_le in E. split; [apply date_le_refl|done].
  - split; [|apply date_le_refl].
    destruct (date_le_total a b) as [H|H]; [|done].
    apply date_leb_le in H. congruence.
Qed.

Lemma date_max_le a b : date_le a (date_max a b) ∧ date_le b (date_max a b).
Proof.
  unfold date_max. destruct (date_leb a b) eqn:E.
  - apply date_leb_le in E. split; [done|apply date_le_refl].
  - split; [apply date_le_refl|].
    destruct (date_le_total a b) as [H|H]; [|done].
    apply date_leb_le in H. congruence.
Qed.

Lemma foldl_date_min m (l : list SaleRecord) :
  let m' := foldl (λ m x, date_min m (order_date x)) m l in
  date_le m' m ∧ ∀ r, r ∈ l → date_le m' (order_date r).
Proof.
  revert m. induction l as [|x l IH]; intros m; cbn.
  - split; [apply date_le_refl|]. intros r Hr. by apply elem_of_nil in Hr.
  - destruct (IH (date_min m (order_date x))) as [H1 H2].
    destruct (date_min_le m (order_date x)) as [Hm Hx].
    split; [by eapply date_le_trans|].
    intros r [->|Hr]%elem_of_cons; [by eapply date_le_trans|by apply H2].
Qed.

Lemma foldl_date_max m (l : list SaleRecord) :
  let m' := foldl (λ m x, date_max m (order_date x)) m l in
  date_le m m' ∧ ∀ r, r ∈ l → date_le (order_date r) m'.
Proof.
  revert m. induction l as [|x l IH]; intros m; cbn.
  - split; [apply date_le_refl|]. intros r Hr. by apply elem_of_nil in Hr.
  - destruct (IH (date_max m (order_date x))) as [H1 H2].
    destruct (date_max_le m (order_date x)) as [Hm Hx].
    split; [by eapply date_le_trans|].
    intros r [->|Hr]%elem_of_cons; [by eapply date_le_trans|by apply H2].
Qed.

Lemma min_date_le df a r : min_date df = Some a → r ∈ df → date_le a (order_date r).
Proof.
  destruct df as [|x df]; [done|]. intros [= <-] Hr.
  destruct (foldl_date_min (order_date x) df) as [H1 H2].
  apply elem_of_cons in Hr as [->|Hr]; [done|by apply H2].
Qed.

Lemma max_date_le df b r : max_date df = Some b → r ∈ df → date_le (order_date r) b.
Proof.
  destruct df as [|x df]; [done|]. intros [= <-] Hr.
  destruct (foldl_date_max (order_date x) df) as [H1 H2].
  apply elem_of_cons in Hr as [->|Hr]; [done|by apply H2].
Qed.

End DateOrder.

Section FetchOrder.

Implicit Types (db : Database) (a b r : SaleRecord).

Lemma zfill4_id y : 1000 ≤ y ≤ 9999 → zfill 4 (pretty y) = pretty y.
Proof.
  intros Hy.
  assert (forallb (λ y, String.eqb (zfill 4 (pretty y)) (pretty y)) (seqZ 1000 9000) = true)
    as Hall by (vm_compute; reflexivity).
  rewrite forallb_forall in Hall. apply String.eqb_eq, Hall.
  apply list_elem_of_In, elem_of_seqZ. lia.
Qed.

(** With a four-digit year the stored text is the padded ISO text. *)
Lemma stored_date_padded d : 1000 ≤ year d ≤ 9999 → stored_date d = strftime_Ymd d.
Proof.
  intros Hy. unfold stored_date, strftime_Ymd, strftime_Ym.
  by rewrite zfill4_id, !append_assoc by done.
Qed.

Lemma strftime_Ymd_leb d d' :
  valid_date d → 1000 ≤ year d ≤ 9999 → valid_date d' → 1000 ≤ year d' ≤ 9999 →
  String.leb (strftime_Ymd d) (strftime_Ymd d') = true ↔ date_le d d'.
Proof.
  intros Hv Hy Hv' Hy'.
  exact (daily_key_order (mkSale 0 d "" "" 0 0 0 0) (mkSale 0 d' "" "" 0 0 0 0) Hv Hy Hv' Hy').
Qed.

Lemma strftime_Ymd_inj d d' :
  valid_date d → 1000 ≤ year d ≤ 9999 → valid_date d' → 1000 ≤ year d' ≤ 9999 →
  strftime_Ymd d = strftime_Ymd d' → d = d'.
Proof.
  intros Hv Hy Hv' Hy' E. apply date_le_antisym.
  - apply strftime_Ymd_leb; try done. rewrite E. apply string_leb_refl.
  - apply strftime_Ymd_leb; try done. rewrite E. apply string_leb_refl.
Qed.

Lemma fetch_order_spec a b :
  fetch_order a b = true ↔
  (stored_date (order_date a) = stored_date (order_date b) ∧ created_at b ≤ created_at a) ∨
  (stored_date (order_date a) ≠ stored_date (order_date b) ∧
   String.leb (stored_date (order_date b)) (stored_date (order_date a)) = true).
Proof.
  unfold fetch_order. destruct (decide _) as [E|N]; rewrite ?Z.leb_le; tauto.
Qed.

Local Instance fetch_order_total : Total (λ a b, Is_true (fetch_order a b)).
Proof.
  intros a b. rewrite !Is_true_true, !fetch_order_spec.
  destruct (decide (stored_date (order_date a) = stored_date (order_date b))) as [E|N].
  - rewrite E. destruct (Z.le_gt_cases (created_at b) (created_at a)); [left|right]; left;
      split; [done|lia|done|lia].
  - destruct (String.leb_total (stored_date (order_date b)) (stored_date (order_date a)));
      [left; right; split; done|right; right; split; [by intros E|done]].
Qed.

Local Instance fetch_order_trans : Transitive (λ a b, Is_true (fetch_order a b)).
Proof.
  intros a b c. rewrite !Is_true_true, !fetch_order_spec.
  set (ta := stored_date (order_date a)). set (tb := stored_date (order_date b)).
  set (tc := stored_date (order_date c)).
  intros [[Eab Hab]|[Nab Hab]] [[Ebc Hbc]|[Nbc Hbc]].
  - left. split; [congruence|lia].
  - right. rewrite Eab. done.
  - right. rewrite <-Ebc. done.
  - right. split; [|by eapply string_leb_trans].
    intros Eac. apply Nab. apply String.leb_antisym; [|done].
    rewrite Eac. done.
Qed.

Lemma fetch_order_newer a b :
  valid_date (order_date a) → 1000 ≤ year (order_date a) ≤ 9999 →
  valid_date (order_date b) → 1000 ≤ year (order_date b) ≤ 9999 →
  fetch_order a b = true → newer_first a b.
Proof.
  intros Hva Hya Hvb Hyb. rewrite fetch_order_spec, !stored_date_padded by done.
  unfold newer_first. intros [[E Hc]|[N Hleb]].
  - apply strftime_Ymd_inj in E; try done. rewrite E. split; [apply date_le_refl|done].
  - split; [by apply strftime_Ymd_leb|]. intros E. by rewrite E in N.
Qed.

Lemma StronglySorted_weaken {A} (R R' : relation A) (l : list A) :
  (∀ x y, R x y → R' x y) → StronglySorted R l → StronglySorted R' l.
Proof.
  intros HR. induction 1 as [|x l _ IH Hx]; constructor; [done|].
  eapply Forall_impl; [exact Hx|]. intros y. apply HR.
Qed.

Lemma StronglySorted_weaken_elem {A} (R R' : relation A) (l : list A) :
  (∀ x y, x ∈ l → y ∈ l → R x y → R' x y) → StronglySorted R l → StronglySorted R' l.
Proof.
  intros HR Hs. induction Hs as [|x l _ IH Hx]; constructor.
  - apply IH. intros y z Hy Hz. apply HR; by apply list_elem_of_further.
  - apply Forall_forall. intros y Hy. apply HR.
    + apply list_elem_of_here.
    + by apply list_elem_of_further.
    + by eapply Forall_forall in Hx.
Qed.

Lemma select_all_perm db : select_all db ≡ₚ records db.
Proof. apply merge_sort_Permutation. Qed.

(** X1. A successful fetch of all records returns the eight column labels
    and every stored record exactly once, as many rows as the store has
    records. The rows are ordered by the stored text of the order date;
    when every stored date is a calendar date with a four-digit year they
    come newest first: no row has a later order date than a row before
    it, and among rows of one date none was created later than a row
    before it. *)
Theorem get_all_sales_newest_first db :
  (∀ r, r ∈ records db →
        valid_date (order_date r) ∧ 1000 ≤ year (order_date r) ≤ 9999) →
  let df := get_all_sales None db in
  columns df = sales_columns ∧
  data df ≡ₚ records db ∧
  length (data df) = record_count db ∧
  StronglySorted newer_first (data df).
Proof.
  intros Hdates. cbn. split_and!.
  - done.
  - apply select_all_perm.
  - rewrite select_all_perm. unfold records, record_count.
    by rewrite length_fmap, length_map_to_list.
  - eapply StronglySorted_weaken_elem; [|apply StronglySorted_merge_sort; apply _].
    intros x y Hx Hy Hxy. rewrite select_all_perm in Hx, Hy.
    destruct (Hdates x Hx), (Hdates y Hy).
    apply fetch_order_newer; try done. by apply Is_true_true.
Qed.

Lemma get_all_sales_newest_first_witness :
  let df := get_all_sales None one_row_db in
  columns df = sales_columns ∧
  data df ≡ₚ records one_row_db ∧
  length (data df) = record_count one_row_db ∧
  StronglySorted newer_first (data df).
Proof.
  apply (get_all_sales_newest_first one_row_db).
  assert (records one_row_db = [widget_sale]) as -> by (by vm_compute).
  intros r Hr. apply list_elem_of_singleton in Hr as ->. by vm_compute.
Defined.

Lemma records_ids db : consistent db → id <$> records db = (map_to_list (table db)).*1.
Proof.
  intros Hc. unfold records. rewrite <-list_fmap_compose.
  apply Forall_fmap_ext_1, Forall_forall. intros [k r] Hkr%elem_of_map_to_list.
  simpl. by apply Hc.
Qed.

(** X2. In every store reached from the empty store by calls of the three
    mutators, the fetched rows have pairwise different ids, and a row is
    fetched exactly when the table holds it under its own id. *)
Theorem fetched_ids_unique db :
  reachable db →
  let df := data (get_all_sales None db) in
  NoDup (id <$> df) ∧ ∀ r, r ∈ df ↔ table db !! id r = Some r.
Proof.
  intros Hr%reachable_consistent. cbn. split.
  - rewrite select_all_perm, records_ids by done. apply NoDup_fst_map_to_list.
  - intros r. rewrite select_all_perm, elem_of_records. split.
    + intros [k Hk]. by rewrite (Hr _ _ Hk).
    + eauto.
Qed.

Lemma fetched_ids_unique_witness :
  let df := data (get_all_sales None one_row_db) in
  NoDup (id <$> df) ∧ ∀ r, r ∈ df ↔ table one_row_db !! id r = Some r.
Proof. exact (fetched_ids_unique one_row_db one_row_db_reachable). Defined.

End FetchOrder.

Section Strip.

Lemma rstrip_idemp s : rstrip (rstrip s) = rstrip s.
Proof.
  induction s as [|c s IH]; [done|]. cbn [rstrip].
  destruct (rstrip s) as [|c' r] eqn:E.
  - destruct (is_space c) eqn:Hc; [done|]. cbn [rstrip]. by rewrite Hc.
  - cbn [rstrip]. cbn [rstrip] in IH. by rewrite IH.
Qed.

Lemma lstrip_head s :
  lstrip s = "" ∨ ∃ c t, lstrip s = String c t ∧ is_space c = false.
Proof.
  induction s as [|c s IH]; [by left|]. cbn [lstrip].
  destruct (is_space c) eqn:Hc; [done|]. right. eauto.
Qed.

Lemma rstrip_head c t :
  is_space c = false → ∃ t', rstrip (String c t) = String c t'.
Proof. intros Hc. cbn [rstrip]. rewrite Hc. destruct (rstrip t); eauto. Qed.

Lemma strip_idemp s : strip (strip s) = strip s.
Proof.
  unfold strip. destruct (lstrip_head s) as [->|(c & t & -> & Hc)]; [done|].
  destruct (rstrip_head c t Hc) as [t' Ht']. rewrite Ht' at 1.
  cbn [lstrip]. rewrite Hc, <-Ht'. apply rstrip_idemp.
Qed.

End Strip.

Section AddRecord.

Implicit Types (db : Database) (r : SaleRecord).

Lemma add_sale_record_success fault now db d p c s pr q :
  let res := add_sale_record fault now db d p c s pr q in
  res.1.1 = true →
  fault = None ∧
  res.1.2 = "Sale record #" +:+ pretty (next_rowid db) +:+ " added successfully" ∧
  table res.2
    = <[next_rowid db := mkSale (next_rowid db) d (strip p) (strip c) s pr q now]> (table db) ∧
  sqlite_sequence res.2 = next_rowid db.
Proof.
  cbv zeta. unfold add_sale_record, sql_insert.
  repeat (case_match; simpl; try done); simplify_eq. done.
Qed.

Lemma add_sale_record_failure fault now db d p c s pr q :
  let res := add_sale_record fault now db d p c s pr q in
  res.1.1 = false → res.2 = db.
Proof.
  cbv zeta. unfold add_sale_record, sql_insert.
  repeat (case_match; simpl; try done).
Qed.

Lemma fetch_after_insert db k r s x :
  table db !! k = None →
  x ∈ data (get_all_sales None (mkDb (<[k := r]> (table db)) s))
  ↔ x = r ∨ x ∈ data (get_all_sales None db).
Proof.
  intros Hk. rewrite !elem_of_fetch_all. cbn [table]. split.
  - intros [j Hj]. apply lookup_insert_Some in Hj as [[_ ->]|[Hne Hj]]; eauto.
  - intros [->|[j Hj]].
    + exists k. apply lookup_insert_eq.
    + exists j. rewrite lookup_insert_ne; [done|]. intros ->. congruence.
Qed.

(** X3. A call of [add_sale_record] with non-empty labels, profit at most
    sales and a positive quantity of the signed 64-bit range, on a table
    whose next rowid is still in that range, succeeds with the message
    naming the new id; the id was free before, the table then holds under
    it the record with the trimmed labels and the given values, every
    other id is as it was, the count grows by one, and the next fetch
    returns the former rows and the new one. *)
Theorem add_sale_record_round_trip now db d (p c : string) (s pr : Q) (q : Z) :
  p ≠ "" → c ≠ "" → (pr <= s)%Q → 0 < q →
  int64 q = true → int64 (next_rowid db) = true →
  let res := add_sale_record None now db d p c s pr q in
  let r := mkSale (next_rowid db) d (strip p) (strip c) s pr q now in
  res.1 = (true, "Sale record #" +:+ pretty (next_rowid db) +:+ " added successfully") ∧
  table db !! next_rowid db = None ∧
  table res.2 !! next_rowid db = Some r ∧
  (∀ k, k ≠ next_rowid db → table res.2 !! k = table db !! k) ∧
  record_count res.2 = S (record_count db) ∧
  (∀ x, x ∈ data (get_all_sales None res.2) ↔ x = r ∨ x ∈ data (get_all_sales None db)).
Proof.
  intros Hp Hc Hle Hq Hq64 Hr64. cbv zeta.
  destruct (add_sale_record_cases now db d p c s pr q) as [[Hbad _]|[_ [Hok _]]].
  { exfalso. destruct Hbad as [?|[?|[Hlt|[?|[?|?]]]]]; [done|done| |lia|congruence|congruence].
    by apply (Qlt_not_le s pr). }
  destruct (add_sale_record_success None now db d p c s pr q Hok) as (_ & Hmsg & Htab & Hseq).
  pose proof (next_rowid_fresh db) as Hfresh.
  split_and!.
  - destruct (add_sale_record _ _ _ _ _ _ _ _ _) as [[b m] db']. simpl in *. congruence.
  - done.
  - rewrite Htab. apply lookup_insert_eq.
  - intros k Hk. rewrite Htab. by apply lookup_insert_ne.
  - unfold record_count. rewrite Htab. by apply map_size_insert_None.
  - intros x. destruct (add_sale_record _ _ _ _ _ _ _ _ _) as [[b m] [t sq]].
    simpl in Htab. subst t. by apply fetch_after_insert.
Qed.

Lemma add_sale_record_round_trip_witness :
  let res := add_sale_record None 5 init_database (mkDate 2024 1 1) " Widget " "Ann" 100 20 2 in
  res.1 = (true, "Sale record #1 added successfully") ∧
  table res.2 !! 1 = Some (mkSale 1 (mkDate 2024 1 1) "Widget" "Ann" 100 20 2 5) ∧
  record_count res.2 = 1%nat.
Proof.
  pose proof (add_sale_record_round_trip 5 init_database (mkDate 2024 1 1) " Widget " "Ann"
                100 20 2) as H.
  destruct H as (H1 & _ & H3 & _ & H5 & _);
    [done|done|by vm_compute|lia|reflexivity|reflexivity|].
  split_and!; [exact H1|exact H3|exact H5].
Defined.

(** X4. [add_sale_record] returns false exactly when the product or the
    customer is the empty text, the profit exceeds the sales, the quantity
    is not positive, the connection raises, the quantity is too large to
    be bound as a 64-bit integer, or the table has used up its rowids; the
    CHECK constraint of the table never rejects a validated record. A
    rejected call leaves the store as it was. *)
Theorem add_sale_record_rejects fault now db d (p c : string) (s pr : Q) (q : Z) :
  let res := add_sale_record fault now db d p c s pr q in
  (res.1.1 = false ↔ p = "" ∨ c = "" ∨ (s < pr)%Q ∨ q ≤ 0 ∨ is_Some fault
                     ∨ 2 ^ 63 ≤ q ∨ 2 ^ 63 ≤ next_rowid db) ∧
  (res.1.1 = false → res.2 = db).
Proof.
  cbv zeta. split; [|apply add_sale_record_failure].
  pose proof (next_rowid_positive db) as Hpos.
  destruct fault as [e|].
  - split; [intros _; do 4 right; left; eauto|intros _].
    unfold add_sale_record. by repeat (case_match; simpl).
  - destruct (add_sale_record_cases now db d p c s pr q) as [(Hbad & Hres & _)|(Hok & Hres & _)];
      cbv zeta in *.
    + split; [intros _|done].
      destruct Hbad as [?|[?|[?|[?|[Hq|Hr]]]]]; [tauto|tauto|tauto|tauto| |].
      * destruct (decide (q ≤ 0)); [tauto|].
        do 5 right; left. apply not_true_iff_false in Hq.
        rewrite int64_range in Hq. lia.
      * do 6 right. apply not_true_iff_false in Hr.
        rewrite int64_range in Hr. lia.
    + rewrite Hres. split; [done|].
      destruct Hok as (Hp & Hc & Hle & Hq & Hq64 & Hr64).
      apply int64_range in Hq64, Hr64.
      intros [?|[?|[Hlt|[?|[[? ?]|[?|?]]]]]]; try done; try lia.
      by apply (Qlt_not_le s pr) in Hlt.
Qed.

(** X5. The record a successful [add_sale_record] stores carries the
    trimmed labels, and trimming them again changes nothing: no stored
    label starts or ends with white space. *)
Theorem stored_labels_are_stripped fault now db d (p c : string) (s pr : Q) (q : Z) :
  let res := add_sale_record fault now db d p c s pr q in
  res.1.1 = true →
  ∃ r, table res.2 !! next_rowid db = Some r ∧
       product r = strip p ∧ customer r = strip c ∧
       strip (product r) = product r ∧ strip (customer r) = customer r.
Proof.
  cbv zeta. intros Hok.
  destruct (add_sale_record_success fault now db d p c s pr q Hok) as (_ & _ & Htab & _).
  exists (mkSale (next_rowid db) d (strip p) (strip c) s pr q now).
  rewrite Htab. split; [apply lookup_insert_eq|].
  cbn [product customer]. by rewrite !strip_idemp.
Qed.

Lemma stored_labels_are_stripped_witness :
  ∃ r, table one_row_db !! 1 = Some r ∧
       product r = strip "Widget" ∧ customer r = strip "Ann" ∧
       strip (product r) = product r ∧ strip (customer r) = customer r.
Proof.
  apply (stored_labels_are_stripped None 5 init_database (mkDate 2024 1 1) "Widget" "Ann"
           100 20 2).
  reflexivity.
Defined.

End AddRecord.

Section RowIds.

Implicit Types (db : Database).

Lemma next_rowid_gt_seq db : sqlite_sequence db < next_rowid db.
Proof. unfold next_rowid. lia. Qed.

Lemma run_call_seq db (c : Call) : sqlite_sequence db ≤ sqlite_sequence (run_call db c).
Proof.
  destruct c as [fault now d p cu s pr q|fault i u|fault i]; cbn [run_call].
  - destruct (add_sale_record fault now db d p cu s pr q).1.1 eqn:E.
    + apply add_sale_record_success in E as (_ & _ & _ & ->).
      pose proof (next_rowid_gt_seq db). lia.
    + apply add_sale_record_failure in E as ->. lia.
  - unfold update_sale_record, sql_update.
    repeat (case_match; simplify_eq; simpl; try lia).
  - unfold delete_sale_record, sql_delete.
    repeat (case_match; simplify_eq; simpl; try lia).
Qed.

Lemma run_calls_seq db cs : sqlite_sequence db ≤ sqlite_sequence (foldl run_call db cs).
Proof.
  revert db. induction cs as [|c cs IH]; intros db; simpl; [lia|].
  pose proof (run_call_seq db c). pose proof (IH (run_call db c)). lia.
Qed.

(** X6. The id reported by a successful [add_sale_record] is larger than
    the id reported by any earlier successful call, whatever additions,
    updates and deletions happened in between: an id is never given twice,
    not even after its record was deleted. *)
Theorem ids_never_reused now db d p c s pr q (cs : list Call) now' d' p' c' s' pr' q' :
  let res := add_sale_record None now db d p c s pr q in
  let db' := foldl run_call res.2 cs in
  let res' := add_sale_record None now' db' d' p' c' s' pr' q' in
  res.1.1 = true → res'.1.1 = true →
  ∃ i j, i < j ∧
    res.1.2 = "Sale record #" +:+ pretty i +:+ " added successfully" ∧
    res'.1.2 = "Sale record #" +:+ pretty j +:+ " added successfully" ∧
    id <$> table res.2 !! i = Some i ∧
    table db' !! j = None ∧
    id <$> table res'.2 !! j = Some j.
Proof.
  cbv zeta. intros H1 H2.
  apply add_sale_record_success in H1 as (_ & Hm1 & Ht1 & Hs1).
  apply add_sale_record_success in H2 as (_ & Hm2 & Ht2 & Hs2).
  set (res := add_sale_record None now db d p c s pr q) in *.
  set (db' := foldl run_call res.2 cs) in *.
  exists (next_rowid db), (next_rowid db'). split_and!.
  - pose proof (run_calls_seq res.2 cs). pose proof (next_rowid_gt_seq db'). fold db' in H. lia.
  - done.
  - done.
  - by rewrite Ht1, lookup_insert_eq.
  - apply next_rowid_fresh.
  - by rewrite Ht2, lookup_insert_eq.
Qed.

Lemma ids_never_reused_witness :
  let res := add_sale_record None 5 init_database (mkDate 2024 1 1) "Widget" "Ann" 100 20 2 in
  let db' := foldl run_call res.2 [CallDelete None 1] in
  let res' := add_sale_record None 6 db' (mkDate 2024 1 2) "Gadget" "Bob" 50 5 1 in
  record_count db' = 0%nat ∧
  ∃ i j, i < j ∧
    res.1.2 = "Sale record #" +:+ pretty i +:+ " added successfully" ∧
    res'.1.2 = "Sale record #" +:+ pretty j +:+ " added successfully" ∧
    id <$> table res.2 !! i = Some i ∧
    table db' !! j = None ∧
    id <$> table res'.2 !! j = Some j.
Proof.
  split; [by vm_compute|].
  apply (ids_never_reused 5 init_database (mkDate 2024 1 1) "Widget" "Ann" 100 20 2
           [CallDelete None 1] 6 (mkDate 2024 1 2) "Gadget" "Bob" 50 5 1);
    reflexivity.
Defined.

End RowIds.

Section UpdateRecord.

Implicit Types (db : Database) (r : SaleRecord).


(** X8. On the id of a stored record, an update with known columns whose
    integers (the id included) are of the signed 64-bit range applies the
    assignments to that record: if the new row has profit at most sales
    and keeps its id or moves to a free one, the call returns true, the
    new row is stored under its id and every other record is as it was;
    if the new row would have profit above sales, or would take the id of
    another record, the call returns false and nothing changes. *)
Theorem update_existing_record db (record_id : Z) r (updates : list assignment) :
  table db !! record_id = Some r →
  updates ≠ [] →
  forallb known_column updates = true →
  int64 record_id = true →
  forallb bound_int64 updates = true →
  let r' := foldl assign r updates in
  let res := update_sale_record None db record_id updates in
  ((profit r' <= sales r')%Q ∧ (id r' = record_id ∨ table db !! id r' = None) →
     res.1 = true ∧
     table res.2 !! id r' = Some r' ∧
     (id r' ≠ record_id → table res.2 !! record_id = None) ∧
     (∀ k, k ≠ record_id → k ≠ id r' → table res.2 !! k = table db !! k)) ∧
  (¬ (profit r' <= sales r')%Q ∨ (id r' ≠ record_id ∧ is_Some (table db !! id r')) →
     res = (false, db)).
Proof.
  intros Hr Hne Hk Hid64 Hb64. cbv zeta. unfold update_sale_record, sql_update.
  destruct updates as [|u us]; [done|]. cbn [is_nil]. cbv iota.
  rewrite Hk, Hid64, Hb64, Hr. cbn [negb andb]. cbv iota.
  set (r' := foldl assign r (u :: us)).
  split.
  - intros [Hle Hid]. apply chk_profit_le in Hle. rewrite Hle. cbn [negb]. cbv iota.
    assert (negb (bool_decide (id r' = record_id)) && bool_decide (is_Some (table db !! id r'))
            = false) as ->.
    { apply andb_false_iff. destruct Hid as [Hid|Hid].
      - left. by apply negb_false_iff, bool_decide_eq_true.
      - right. apply bool_decide_eq_false. rewrite Hid. by intros [? ?]. }
    cbn. split_and!.
    + done.
    + apply lookup_insert_eq.
    + intros Hid'. rewrite lookup_insert_ne by done. apply lookup_delete_eq.
    + intros k Hk1 Hk2. rewrite lookup_insert_ne by done. by apply lookup_delete_ne.
  - intros [Hgt|[Hid Hsome]].
    + destruct (chk_profit r') eqn:E; [|done]. by apply chk_profit_le in E.
    + destruct (chk_profit r'); [|done]. cbn [negb]. cbv iota.
      rewrite (bool_decide_eq_false_2 _ Hid), (bool_decide_eq_true_2 _ Hsome). done.
Qed.

Lemma update_existing_record_witness :
  update_sale_record None one_row_db 1 [SetProfit 500] = (false, one_row_db) ∧
  (update_sale_record None one_row_db 1 [SetProfit 50; SetQuantity 3]).1 = true.
Proof.
  pose proof (update_existing_record one_row_db 1 widget_sale [SetProfit 500]) as H1.
  pose proof (update_existing_record one_row_db 1 widget_sale [SetProfit 50; SetQuantity 3]) as H2.
  split.
  - apply H1; [by vm_compute|done|done|done|done|]. left. by vm_compute.
  - apply H2; [by vm_compute|done|done|done|done|]. split; [by vm_compute|by left].
Defined.

End UpdateRecord.

Section Selection.

Context {A : Type}.

Implicit Types (p q : A → bool) (l : list A).

Lemma filter_filter p q l :
  List.filter p (List.filter q l) = List.filter (λ x, q x && p x) l.
Proof.
  induction l as [|x l IH]; [done|]. cbn.
  destruct (q x); cbn; [|done]. destruct (p x); by rewrite IH.
Qed.

Lemma filter_all p l : (∀ x, x ∈ l → p x = true) → List.filter p l = l.
Proof.
  induction l as [|x l IH]; intros Hp; [done|]. cbn.
  rewrite (Hp x) by apply list_elem_of_here.
  f_equal. apply IH. intros y Hy. apply Hp. by apply list_elem_of_further.
Qed.

Lemma filter_sublist p l : List.filter p l `sublist_of` l.
Proof.
  induction l as [|x l IH]; [done|]. cbn.
  destruct (p x); by constructor.
Qed.

Lemma filter_true l : List.filter (λ _, true) l = l.
Proof. induction l as [|x l IH]; [done|]. cbn. by rewrite IH. Qed.

End Selection.

Section FilteredView.

Implicit Types (f : Filters) (df : list SaleRecord) (r : SaleRecord).

Lemma apply_filters_filter f df : apply_filters f df = List.filter (keeps f) df.
Proof.
  unfold apply_filters. cbv zeta.
  assert (∀ (b : bool) p l,
    (if b then List.filter p l else l) = List.filter (λ x : SaleRecord, negb b || p x) l) as Hif.
  { intros [] p l; [done|]. cbn. by rewrite filter_true. }
  rewrite Hif.
  assert (∀ l, match date_range f with
               | [s; e] => List.filter (in_range s e) l
               | _ => l
               end
             = List.filter (λ x, match date_range f with
                                 | [s; e] => in_range s e x
                                 | _ => true
                                 end) l) as Hrange.
  { intros l. destruct (date_range f) as [|s [|e [|? ?]]]; by rewrite ?filter_true. }
  rewrite Hrange, !filter_filter.
  apply filter_ext. intros r. unfold keeps. by rewrite negb_involutive, ?andb_assoc.
Qed.

(** X9. The Filtered View is the frame filtered by one row predicate: it
    keeps the order and the multiplicity of the rows, filtering it again
    with the same filters changes nothing, and the view of two frames put
    end to end is the two views put end to end. *)
Theorem filtered_view_is_a_selection f df_all :
  let df := apply_filters f df_all in
  df = List.filter (keeps f) df_all ∧
  df `sublist_of` df_all ∧
  apply_filters f df = df ∧
  (∀ more, apply_filters f (df_all ++ more) = df ++ apply_filters f more).
Proof.
  cbv zeta. rewrite !apply_filters_filter. split_and!.
  - done.
  - apply filter_sublist.
  - rewrite filter_filter. apply filter_ext. intros r. by destruct (keeps f r).
  - intros more. by rewrite !apply_filters_filter, List.filter_app.
Qed.

Lemma elem_of_apply_filters f df r : r ∈ apply_filters f df → r ∈ df.
Proof.
  rewrite apply_filters_filter. intros Hr.
  eapply elem_of_sublist; [done|apply filter_sublist].
Qed.

(** X10. On a frame with rows the sidebar starts from the range between the
    earliest and the latest order date, all products and both minimum
    amounts zero; every row lies in that range, and the Filtered View is
    then exactly the rows with non-negative sales and non-negative profit,
    so a record with a negative profit is hidden from the start. *)
Theorem default_filters_view (df_all : DataFrame) :
  empty df_all = false →
  ∃ a b,
    default_filters df_all = Some (mkFilters [a; b] "All" 0 0) ∧
    (∀ r, r ∈ data df_all → date_le a (order_date r) ∧ date_le (order_date r) b) ∧
    apply_filters (mkFilters [a; b] "All" 0 0) (data df_all)
      = List.filter (λ r, Qle_bool 0 (sales r) && Qle_bool 0 (profit r)) (data df_all).
Proof.
  intros Hne. unfold default_filters. rewrite Hne.
  destruct df_all as [cols rows]. cbn [data] in *.
  destruct rows as [|x rows].
  { unfold empty in Hne. cbn in Hne. by rewrite orb_true_r in Hne. }
  destruct (min_date (x :: rows)) as [a|] eqn:Ha; [|done].
  destruct (max_date (x :: rows)) as [b|] eqn:Hb; [|done].
  exists a, b.
  assert (∀ r, r ∈ x :: rows → date_le a (order_date r) ∧ date_le (order_date r) b) as Hin.
  { intros r Hr. split; [by eapply min_date_le|by eapply max_date_le]. }
  split_and!; [done|done|].
  rewrite apply_filters_filter.
  rewrite <-(filter_all (in_range a b) (x :: rows)) at 2.
  - rewrite filter_filter. apply filter_ext. intros r. unfold keeps. cbn.
    by rewrite andb_true_r, andb_assoc.
  - intros r Hr. by apply in_range_spec, Hin.
Qed.

Lemma default_filters_view_witness :
  ∃ a b,
    default_filters (get_all_sales None one_row_db) = Some (mkFilters [a; b] "All" 0 0) ∧
    (∀ r, r ∈ data (get_all_sales None one_row_db)
          → date_le a (order_date r) ∧ date_le (order_date r) b) ∧
    apply_filters (mkFilters [a; b] "All" 0 0) (data (get_all_sales None one_row_db))
      = List.filter (λ r, Qle_bool 0 (sales r) && Qle_bool 0 (profit r))
          (data (get_all_sales None one_row_db)).
Proof. apply (default_filters_view (get_all_sales None one_row_db)). by vm_compute. Defined.

End FilteredView.

Section Margins.

Implicit Types (db : Database) (f : Filters) (df : list SaleRecord) (r : SaleRecord).

Lemma Qsum_profit_le df :
  (∀ r, r ∈ df → (profit r <= sales r)%Q) →
  (Qsum (map profit df) <= Qsum (map sales df))%Q.
Proof.
  induction df as [|x df IH]; intros Hle; cbn.
  - apply Qle_refl.
  - apply Qplus_le_compat.
    + apply Hle, list_elem_of_here.
    + apply IH. intros r Hr. by apply Hle, list_elem_of_further.
Qed.

Lemma fdiv_pos (a b : Q) : (0 < b)%Q → fdiv a b = Fin (a / b).
Proof.
  intros Hb. unfold fdiv. destruct (Qeq_bool b 0) eqn:E; [|done].
  apply Qeq_bool_iff in E. rewrite E in Hb. by apply Qlt_irrefl in Hb.
Qed.

Lemma margin_at_most_100 (tp ts : Q) :
  (0 < ts)%Q → (tp <= ts)%Q →
  ∃ q, fmul (fdiv tp ts) 100 = Fin q ∧ (q <= 100)%Q.
Proof.
  intros Hpos Hle. rewrite fdiv_pos by done. cbn [fmul].
  eexists. split; [done|].
  apply Qle_trans with (1 * 100)%Q; [|by apply Qle_bool_iff].
  apply Qmult_le_compat_r; [|by apply Qle_bool_iff].
  apply Qle_shift_div_r; [done|]. by rewrite Qmult_1_l.
Qed.

Lemma reachable_profit_le db r :
  reachable db → r ∈ data (get_all_sales None db) → (profit r <= sales r)%Q.
Proof.
  intros Hreach [k Hk]%elem_of_fetch_all.
  eapply (reachable_Forall (λ _ r, (profit r <= sales r)%Q)) in Hreach.
  - by apply (Hreach k r).
  - intros r'. apply chk_profit_le.
Qed.



Lemma nlargest_elem_of {A} n (metric : A → Q) (rows : list A) x :
  x ∈ nlargest n metric rows → x ∈ rows.
Proof.
  unfold nlargest. intros Hx.
  rewrite <-(sort_desc_perm metric rows).
  eapply elem_of_sublist; [done|apply sublist_take].
Qed.

Lemma group_margin_bounded `{Countable K} `{KeyOrder K} (key : SaleRecord → K) df k a :
  (∀ r, r ∈ df → (profit r <= sales r)%Q) →
  (k, a) ∈ aggregate key df → margin_bounded a (margin a).
Proof.
  intros Hle Hka. apply elem_of_aggregate in Hka. rewrite groupby_lookup in Hka.
  destruct (group_of key k df) as [|x l] eqn:E; [done|]. injection Hka as <-.
  destruct (fold_agg_add (x :: l) agg_zero) as (F1 & F2 & _). cbv zeta in F1, F2.
  assert (agg_profit (foldl agg_add agg_zero (x :: l))
          <= agg_sales (foldl agg_add agg_zero (x :: l)))%Q as Hagg.
  { rewrite F1, F2. cbn [agg_zero agg_profit agg_sales]. rewrite !Qplus_0_l.
    apply Qsum_profit_le. intros r Hr. apply Hle.
    rewrite <-E in Hr. unfold group_of in Hr.
    eapply elem_of_sublist; [done|apply filter_sublist]. }
  split; [done|]. intros Hpos. by apply margin_at_most_100.
Qed.



Lemma fdiv_orders (a : Q) (n : Z) : 0 < n → fdiv a (inject_Z n) = Fin (a / inject_Z n).
Proof.
  intros Hn. apply fdiv_pos. unfold Qlt, inject_Z. cbn. lia.
Qed.



Lemma trend_data_aggs time_period (df : list SaleRecord) :
  (trend_data time_period df).*1.*2 = (aggregate (period_col time_period) df).*2.
Proof.
  unfold trend_data. induction (aggregate _ df) as [|x l IH]; [done|].
  cbn. by f_equal.
Qed.

Lemma profit_analysis_aggs (df : list SaleRecord) :
  pa_agg <$> profit_analysis df = (aggregate product df).*2.
Proof.
  unfold profit_analysis. induction (aggregate _ df) as [|x l IH]; [done|].
  cbn. by f_equal.
Qed.

(** X14. The transaction counts of the rows of the trend table, for any
    period, and of the rows of the profitability table add up to the
    number of orders on the KPI card, the number of rows of the view:
    each record is counted in one row of each table. *)
Theorem charts_agree_with_kpis (time_period : TimePeriod) (df : list SaleRecord) :
  let k := kpis df in
  let trend := (trend_data time_period df).*1.*2 in
  let by_product := pa_agg <$> profit_analysis df in
  Zsum (map agg_count trend) = total_orders k ∧
  Zsum (map agg_count by_product) = total_orders k ∧
  total_orders k = Z.of_nat (length df).
Proof.
  cbv zeta. rewrite trend_data_aggs, profit_analysis_aggs.
  unfold kpis. cbn [total_orders].
  assert (∀ `{Countable K} `{KeyOrder K} (key : SaleRecord → K),
            (aggregate key df).*2 ≡ₚ map snd (map_to_list (groupby key df))) as Hperm.
  { intros K ? ? ? key. by rewrite aggregate_perm. }
  destruct (groupby_totals (period_col time_period) df) as (_ & _ & T4).
  destruct (groupby_totals product df) as (_ & _ & P4).
  cbv zeta in *.
  split_and!.
  - rewrite <-T4. apply Zsum_perm, Permutation_map, Hperm.
  - rewrite <-P4. apply Zsum_perm, Permutation_map, Hperm.
  - done.
Qed.

End Margins.

Section SortedRows.

Lemma StronglySorted_strict {A} (R : relation A) (l : list A) :
  StronglySorted R l → NoDup l → StronglySorted (λ a b, R a b ∧ a ≠ b) l.
Proof.
  induction 1 as [|x l _ IH Hx]; intros Hnd; constructor.
  - apply IH. by apply NoDup_cons in Hnd as [_ ?].
  - apply NoDup_cons in Hnd as [Hx' _].
    apply Forall_forall. intros y Hy. split.
    + by eapply Forall_forall in Hx.
    + intros ->. done.
Qed.

Context `{Countable K} `{KeyOrder K} (key : SaleRecord → K).

Implicit Types (df : list SaleRecord).

Lemma aggregate_keys_length df (universe : list K) :
  (∀ r, r ∈ df → key r ∈ universe) →
  (length (aggregate key df) ≤ length universe)%nat.
Proof.
  intros Hin. rewrite <-(length_fmap fst).
  apply submseteq_length, NoDup_submseteq; [apply aggregate_keys_NoDup|].
  intros k (r & Hr & <-)%aggregate_keys. by apply Hin.
Qed.

Lemma aggregate_sorted df :
  (∀ a b : K, key_leb a b = true ∨ key_leb b a = true) →
  (∀ a b c : K, key_leb a b = true → key_leb b c = true → key_leb a c = true) →
  StronglySorted key_lt (aggregate key df).*1.
Proof.
  intros Htotal Htrans.
  apply (StronglySorted_weaken (λ a b, Is_true (key_leb a b) ∧ a ≠ b)).
  { intros a b [Hab Hne]. split; [by apply Is_true_true|done]. }
  apply StronglySorted_strict; [|apply aggregate_keys_NoDup].
  apply (StronglySorted_fmap fst (λ a b, Is_true (key_leb a.1 b.1))); [done|].
  unfold aggregate, reset_index. apply StronglySorted_merge_sort.
  - intros a b c. rewrite !Is_true_true. apply Htrans.
  - intros a b. rewrite !Is_true_true. apply Htotal.
Qed.

End SortedRows.

Section Charts.

Implicit Types (df : list SaleRecord).

(** X15. The rows of the trend table and of the profitability table are
    listed in strictly ascending order of their key: integers by value for
    week, quarter and year, texts in the order of their characters. *)
Theorem grouped_rows_ascend (time_period : TimePeriod) df :
  StronglySorted key_lt (trend_data time_period df).*1.*1 ∧
  StronglySorted key_lt (pa_product <$> profit_analysis df) ∧
  (∀ x y : Z, key_lt (KeyInt x) (KeyInt y) ↔ x < y).
Proof.
  split_and!.
  - unfold trend_data. rewrite <-!list_fmap_compose.
    apply (aggregate_sorted (period_col time_period) df).
    + apply bucket_key_leb_total.
    + apply bucket_key_leb_trans.
  - unfold profit_analysis. rewrite <-list_fmap_compose.
    apply (aggregate_sorted product df).
    + apply String.leb_total.
    + apply string_leb_trans.
  - apply key_lt_int.
Qed.

(** X16. When every order date is a calendar date, the weekly trend has at
    most 53 rows and the quarterly trend at most 4, however many years
    the data spans; no trend has more rows than the view has records. *)
Theorem trend_row_bounds df :
  (∀ r, r ∈ df → valid_date (order_date r)) →
  (length (trend_data Weekly df) ≤ 53)%nat ∧
  (length (trend_data Quarterly df) ≤ 4)%nat ∧
  (∀ time_period, length (trend_data time_period df) ≤ length df)%nat.
Proof.
  intros Hv. unfold trend_data. split_and!.
  - rewrite length_map.
    etrans; [apply (aggregate_keys_length _ df (KeyInt <$> seqZ 1 53))|].
    + intros r Hr. apply list_elem_of_fmap. exists (iso_week (order_date r)).
      split; [done|]. apply elem_of_seqZ.
      pose proof (iso_week_range _ (Hv r Hr)). lia.
    + by rewrite length_fmap, length_seqZ.
  - rewrite length_map.
    etrans; [apply (aggregate_keys_length _ df (KeyInt <$> seqZ 1 4))|].
    + intros r Hr. apply list_elem_of_fmap. exists (quarter (order_date r)).
      split; [done|]. apply elem_of_seqZ.
      pose proof (quarter_range _ (Hv r Hr)). lia.
    + by rewrite length_fmap, length_seqZ.
  - intros time_period. rewrite length_map.
    etrans; [apply (aggregate_keys_length _ df (period_col time_period <$> df))|].
    + intros r Hr. apply list_elem_of_fmap. eauto.
    + by rewrite length_fmap.
Qed.

Lemma trend_row_bounds_witness :
  (length (trend_data Weekly [feb_2023_sale; feb_2024_sale]) ≤ 53)%nat ∧
  (length (trend_data Quarterly [feb_2023_sale; feb_2024_sale]) ≤ 4)%nat ∧
  (∀ time_period,
     length (trend_data time_period [feb_2023_sale; feb_2024_sale])
     ≤ length [feb_2023_sale; feb_2024_sale])%nat.
Proof.
  apply (trend_row_bounds [feb_2023_sale; feb_2024_sale]).
  intros r Hr. apply elem_of_cons in Hr as [->|Hr]; [by vm_compute|].
  apply list_elem_of_singleton in Hr as ->. by vm_compute.
Defined.

Lemma nunique_keys df : length (aggregate product df) = nunique (product <$> df).
Proof.
  unfold nunique. rewrite <-(length_fmap fst). apply Permutation_length.
  apply NoDup_Permutation.
  - apply aggregate_keys_NoDup.
  - apply NoDup_remove_dups.
  - intros p. rewrite aggregate_keys, elem_of_remove_dups, list_elem_of_fmap.
    split; intros (r & ? & ?); eauto.
Qed.

(** X17. In the footer metric the number of products of the Filtered View
    is at most the number of products of the whole frame and at most the
    number of rows of the view; it is the number of rows of the
    profitability table, and it is zero exactly when the view is empty. *)
Theorem products_analyzed_bounds (f : Filters) df_all :
  let df := apply_filters f df_all in
  ((products_analyzed df df_all).1 ≤ (products_analyzed df df_all).2)%nat ∧
  ((products_analyzed df df_all).1 ≤ length df)%nat ∧
  length (profit_analysis df) = (products_analyzed df df_all).1 ∧
  ((products_analyzed df df_all).1 = 0%nat ↔ df = []).
Proof.
  cbv zeta. unfold products_analyzed. cbn [fst snd]. split_and!.
  - unfold nunique. apply submseteq_length, NoDup_submseteq; [apply NoDup_remove_dups|].
    intros p. rewrite !elem_of_remove_dups, !list_elem_of_fmap.
    intros (r & -> & Hr%elem_of_apply_filters). eauto.
  - rewrite <-nunique_keys.
    etrans; [apply (aggregate_keys_length product _ (product <$> apply_filters f df_all))|].
    + intros r Hr. apply list_elem_of_fmap. eauto.
    + by rewrite length_fmap.
  - unfold profit_analysis. by rewrite length_map, nunique_keys.
  - unfold nunique. split.
    + intros Hlen. apply length_zero_iff_nil in Hlen.
      destruct (apply_filters f df_all) as [|x l]; [done|]. exfalso.
      assert (product x ∈ remove_dups (product <$> x :: l)) as Hx.
      { apply elem_of_remove_dups. cbn. apply list_elem_of_here. }
      rewrite Hlen in Hx. by apply elem_of_nil in Hx.
    + by intros ->.
Qed.

(** X18. The product selector offers "All" first and then every product of
    the frame once, in strictly ascending order; an option is "All" or the
    product of some record, and there is one option more than products. *)
Theorem product_options df_all :
  head (products df_all) = Some "All" ∧
  (∀ p, p ∈ products df_all ↔ p = "All" ∨ ∃ r, r ∈ df_all ∧ product r = p) ∧
  StronglySorted key_lt (tail (products df_all)) ∧
  length (products df_all) = S (nunique (product <$> df_all)).
Proof.
  unfold products. cbn [head tail length]. split_and!.
  - done.
  - intros p. rewrite elem_of_cons, merge_sort_Permutation, elem_of_remove_dups,
      list_elem_of_fmap.
    split; (intros [?|(r & ? & ?)]; [by left|right; eauto]).
  - apply (StronglySorted_weaken (λ a b, Is_true (String.leb a b) ∧ a ≠ b)).
    { intros a b [Hab Hne]. split; [by apply Is_true_true|done]. }
    apply StronglySorted_strict.
    + apply StronglySorted_merge_sort.
      * intros a b c. rewrite !Is_true_true. apply string_leb_trans.
      * intros a b. rewrite !Is_true_true. apply String.leb_total.
    + rewrite merge_sort_Permutation. apply NoDup_remove_dups.
  - by rewrite merge_sort_Permutation.
Qed.

Lemma Zsum_nonneg (l : list SaleRecord) :
  (∀ r, r ∈ l → 0 < quantity r) → 0 ≤ Zsum (map quantity l).
Proof.
  induction l as [|x l IH]; intros Hq; [done|].
  change (0 ≤ quantity x + Zsum (map quantity l)).
  assert (0 < quantity x) by apply Hq, list_elem_of_here.
  assert (0 ≤ Zsum (map quantity l)); [|lia].
  apply IH. intros r Hr. by apply Hq, list_elem_of_further.
Qed.

Lemma Zsum_pos (l : list SaleRecord) :
  l ≠ [] → (∀ r, r ∈ l → 0 < quantity r) → 0 < Zsum (map quantity l).
Proof.
  destruct l as [|x l]; [done|]. intros _ Hq.
  change (0 < quantity x + Zsum (map quantity l)).
  assert (0 < quantity x) by apply Hq, list_elem_of_here.
  assert (0 ≤ Zsum (map quantity l)); [|lia].
  apply Zsum_nonneg. intros r Hr. by apply Hq, list_elem_of_further.
Qed.



End Charts.

Section Form.

Implicit Types (db : Database) (r : SaleRecord).

Lemma strip_nonempty s : strip s ≠ "" → s ≠ "".
Proof. by intros H ->. Qed.

Lemma truthy_true s : truthy s = true ↔ s ≠ "".
Proof. by destruct s. Qed.

(** X20. The form handler shows the success box exactly when both labels,
    trimmed of the white space [str.strip] removes, are non-empty, the
    profit is at most the sales, the quantity is positive and below 2^63,
    the connection does not raise and the table has a rowid left; with an
    error box the store is unchanged; on success one well-formed record
    was stored under a fresh id. *)
Theorem submit_form_spec fault now db d (p c : string) (q : Z) (s pr : Q) :
  let res := submit_form fault now db d p c q s pr in
  ((∃ text, res.1 = SuccessBox text)
   ↔ strip p ≠ "" ∧ strip c ≠ "" ∧ (pr <= s)%Q ∧ 0 < q ∧ fault = None
     ∧ q < 2 ^ 63 ∧ next_rowid db < 2 ^ 63) ∧
  ((∃ text, res.1 = ErrorBox text) → res.2 = db) ∧
  ((∃ text, res.1 = SuccessBox text) →
     ∃ r, well_formed r ∧ id r = next_rowid db ∧ table db !! id r = None ∧
          table res.2 = <[id r := r]> (table db)).
Proof.
  cbv zeta. unfold submit_form.
  destruct (truthy (strip p)) eqn:Hp; cbn [negb orb].
  2:{ apply not_true_iff_false in Hp. rewrite truthy_true in Hp.
      split_and!; [|done|by intros [? [=]]].
      split; [by intros [? [=]]|]. intros (? & _). tauto. }
  destruct (truthy (strip c)) eqn:Hc; cbn [negb orb].
  2:{ apply not_true_iff_false in Hc. rewrite truthy_true in Hc.
      split_and!; [|done|by intros [? [=]]].
      split; [by intros [? [=]]|]. intros (? & ? & _). tauto. }
  apply truthy_true in Hp, Hc.
  destruct (Qlt_bool s pr) eqn:Hlt.
  { apply Qlt_bool_lt in Hlt.
    split_and!; [|done|by intros [? [=]]].
    split; [by intros [? [=]]|]. intros (_ & _ & Hle & _).
    by apply (Qlt_not_le s pr) in Hlt. }
  assert (pr <= s)%Q as Hle.
  { apply Qnot_lt_le. intros H. apply Qlt_bool_lt in H. congruence. }
  pose proof (add_sale_record_success fault now db d p c s pr q) as Hok.
  pose proof (add_sale_record_failure fault now db d p c s pr q) as Hfail.
  pose proof (add_sale_record_cases now db d p c s pr q) as Hcases.
  cbv zeta in Hok, Hfail, Hcases.
  destruct (add_sale_record fault now db d p c s pr q) as [[success message] db'] eqn:E.
  cbn [fst snd] in *. destruct success.
  - destruct (Hok eq_refl) as (-> & _ & Htab & _). rewrite E in Hcases. cbn in Hcases.
    destruct Hcases as [(_ & [=] & _)|((_ & _ & _ & Hq & Hq64 & Hr64) & _)].
    apply int64_range in Hq64, Hr64.
    split_and!.
    + split; [intros _; split_and!; [done|done|done|done|done|lia|lia]|eauto].
    + by intros [? [=]].
    + intros _. exists (mkSale (next_rowid db) d (strip p) (strip c) s pr q now).
      split; [|split_and!; [done|apply next_rowid_fresh|done]].
      unfold well_formed. cbn [product customer quantity profit sales].
      by rewrite !strip_idemp.
  - split_and!.
    + split; [by intros [? [=]]|]. intros (_ & _ & _ & Hq & -> & Hq64 & Hr64).
      rewrite E in Hcases. cbn in Hcases.
      destruct Hcases as [(Hbad & _)|(_ & [=] & _)].
      pose proof (next_rowid_positive db) as Hpos.
      destruct Hbad as [->|[->|[Hlt'|[?|[Hbad|Hbad]]]]]; [done|done| |lia| |].
      * by apply (Qlt_not_le s pr) in Hlt'.
      * apply not_true_iff_false in Hbad. rewrite int64_range in Hbad. lia.
      * apply not_true_iff_false in Hbad. rewrite int64_range in Hbad. lia.
    + intros _. by apply Hfail.
    + by intros [? [=]].
Qed.

Lemma submit_form_store fault now db d (p c : string) (q : Z) (s pr : Q) :
  let res := submit_form fault now db d p c q s pr in
  res.2 = db ∨ ∃ r, well_formed r ∧ table res.2 = <[id r := r]> (table db).
Proof.
  cbv zeta. unfold submit_form.
  destruct (truthy (strip p)) eqn:Hp; cbn [negb orb]; [|by left].
  destruct (truthy (strip c)) eqn:Hc; cbn [negb orb]; [|by left].
  apply truthy_true in Hp, Hc.
  destruct (Qlt_bool s pr) eqn:Hlt; [by left|].
  pose proof (add_sale_record_success fault now db d p c s pr q) as Hok.
  pose proof (add_sale_record_failure fault now db d p c s pr q) as Hfail.
  pose proof (add_sale_record_cases now db d p c s pr q) as Hcases.
  cbv zeta in Hok, Hfail, Hcases.
  destruct (add_sale_record fault now db d p c s pr q) as [[success message] db'] eqn:E.
  cbn [fst snd] in *. destruct success; [|left; by apply Hfail].
  destruct (Hok eq_refl) as (-> & _ & Htab & _). rewrite E in Hcases. cbn in Hcases.
  destruct Hcases as [(_ & [=] & _)|((_ & _ & Hle & Hq & _) & _)].
  right. exists (mkSale (next_rowid db) d (strip p) (strip c) s pr q now).
  split; [|done].
  unfold well_formed. cbn [product customer quantity profit sales].
  by rewrite !strip_idemp.
Qed.

Lemma run_action_step db (a : PageAction) :
  table (run_action db a) = table db ∨
  (∃ k, table (run_action db a) = delete k (table db)) ∨
  (∃ r, well_formed r ∧ table (run_action db a) = <[id r := r]> (table db)).
Proof.
  destruct a as [fault now d p c q s pr|fault i]; cbn [run_action].
  - destruct (submit_form_store fault now db d p c q s pr) as [->|?]; auto.
  - unfold delete_sale_record, sql_delete.
    repeat (case_match; simplify_eq; cbn; auto). right; left. eauto.
Qed.

(** X21. Whatever sequence of form submissions and deletions the data entry
    page performs on the empty store, every stored record has non-empty
    trimmed labels, a positive quantity and profit at most sales. *)
Theorem page_records_are_well_formed (actions : list PageAction) r :
  r ∈ records (foldl run_action init_database actions) → well_formed r.
Proof.
  intros [k Hk]%elem_of_records. revert k r Hk.
  change (map_Forall (λ _ r, well_formed r)
            (table (foldl run_action init_database actions))).
  induction actions as [|a actions IH] using rev_ind; [apply map_Forall_empty|].
  rewrite foldl_app. cbn [foldl].
  destruct (run_action_step (foldl run_action init_database actions) a)
    as [->|[[k ->]|(x & Hx & ->)]].
  - done.
  - by apply map_Forall_delete.
  - by apply map_Forall_insert_2.
Qed.

Lemma page_records_are_well_formed_witness :
  well_formed (mkSale 1 (mkDate 2024 1 1) "Widget" "Ann" 100 20 2 5).
Proof.
  apply (page_records_are_well_formed
           [ActSubmit None 5 (mkDate 2024 1 1) " Widget" "Ann " 2 100 20;
            ActSubmit None 6 (mkDate 2024 1 2) "   " "Bob" 1 10 1]).
  apply elem_of_records. exists 1. by vm_compute.
Defined.

End Form.

Section Summary.

Implicit Types (db : Database) (r : SaleRecord).

Lemma sqlite_sum_acc (l : list Z) (acc : Z) :
  0 ≤ acc → (∀ x, x ∈ l → 0 ≤ x) → acc + Zsum l < 2 ^ 63 →
  foldl (λ acc q, x ← acc; if int64 (x + q) then Some (x + q) else None) (Some acc) l
  = Some (acc + Zsum l).
Proof.
  revert acc. induction l as [|q l IH]; intros acc Hacc Hl Hsum.
  - cbn. f_equal. lia.
  - assert (0 ≤ q) by apply Hl, list_elem_of_here.
    assert (∀ x, x ∈ l → 0 ≤ x) as Hl' by (intros x Hx; by apply Hl, list_elem_of_further).
    assert (0 ≤ Zsum l) as Hnn.
    { clear -Hl'. induction l as [|y l IH]; [done|].
      change (0 ≤ y + Zsum l).
      assert (0 ≤ y) by apply Hl', list_elem_of_here.
      assert (0 ≤ Zsum l); [|lia].
      apply IH. intros x Hx. by apply Hl', list_elem_of_further. }
    change (Zsum (q :: l)) with (q + Zsum l) in *.
    cbn [foldl mbind option_bind].
    assert (int64 (acc + q) = true) as -> by (apply int64_range; lia).
    rewrite IH by (done || lia). f_equal. lia.
Qed.

(** A [SUM] over quantities that are not negative and add up to less than
    2^63 is their sum. *)
Lemma sqlite_sum_exact (l : list Z) :
  (∀ x, x ∈ l → 0 ≤ x) → Zsum l < 2 ^ 63 → sqlite_sum l = Some (Zsum l).
Proof.
  intros Hl Hsum. unfold sqlite_sum. by rewrite sqlite_sum_acc.
Qed.

Lemma summary_sums_succeed (selected : list SaleRecord) :
  (∀ r, r ∈ selected → 0 ≤ quantity r) →
  Zsum (map quantity selected) < 2 ^ 63 →
  forallb (λ g : string * string * string * Agg, bool_decide (is_Some
     (sqlite_sum (map quantity
        (List.filter (λ r, bool_decide (summary_key r = g.1)) selected)))))
    (map_to_list (groupby summary_key selected)) = true.
Proof.
  intros Hq Hsum. apply forallb_forall. intros g _. apply bool_decide_eq_true.
  pose proof (Zsum_filter_le (λ r, bool_decide (summary_key r = g.1)) selected Hq) as Hle.
  rewrite sqlite_sum_exact; [done| |lia].
  intros x (r & -> & Hr)%list_elem_of_fmap. apply Hq.
  eapply elem_of_sublist; [done|apply filter_sublist].
Qed.



(** X23. With both ends given, and all dates calendar dates with four-digit
    years, every row of [get_sales_summary] is the key of a stored record
    whose order date lies between the two ends, both included. *)
Theorem get_sales_summary_range db (s e : date) k a :
  valid_date s → 1000 ≤ year s ≤ 9999 →
  valid_date e → 1000 ≤ year e ≤ 9999 →
  (∀ r, r ∈ records db → valid_date (order_date r) ∧ 1000 ≤ year (order_date r) ≤ 9999) →
  (k, a) ∈ summary_rows (get_sales_summary None db (Some s) (Some e)) →
  ∃ r, r ∈ records db ∧ summary_key r = k ∧
       date_le s (order_date r) ∧ date_le (order_date r) e.
Proof.
  intros Hs Hsy He Hey Hdb. unfold get_sales_summary.
  destruct (forallb _ _); cbn [summary_rows]; [|by intros ?%elem_of_nil].
  rewrite merge_sort_Permutation. intros Hka%elem_of_map_to_list.
  rewrite groupby_lookup in Hka.
  destruct (group_of summary_key k (List.filter (between s e) (records db)))
    as [|x l] eqn:E; [done|].
  assert (In x (group_of summary_key k (List.filter (between s e) (records db)))) as Hx
    by (rewrite E; by left).
  apply filter_In in Hx as [Hx Hk]. apply bool_decide_eq_true in Hk.
  apply filter_In in Hx as [Hx Hb]. apply list_elem_of_In in Hx.
  destruct (Hdb x Hx) as [Hv Hy].
  unfold between in Hb. apply andb_true_iff in Hb as [Hb1 Hb2].
  unfold isoformat in Hb1, Hb2. rewrite stored_date_padded in Hb1, Hb2 by done.
  apply strftime_Ymd_leb in Hb1, Hb2; try done.
  exists x. done.
Qed.

Lemma get_sales_summary_range_witness :
  ∃ r, r ∈ records one_row_db ∧ summary_key r = ("2024-01-01", "Widget", "Ann") ∧
       date_le (mkDate 2024 1 1) (order_date r) ∧
       date_le (order_date r) (mkDate 2024 12 31).
Proof.
  apply (get_sales_summary_range one_row_db (mkDate 2024 1 1) (mkDate 2024 12 31)
           ("2024-01-01", "Widget", "Ann") (agg_add agg_zero widget_sale));
    try (by vm_compute).
  - assert (records one_row_db = [widget_sale]) as -> by (by vm_compute).
    intros r Hr. apply list_elem_of_singleton in Hr as ->. by vm_compute.
  - assert (summary_rows (get_sales_summary None one_row_db (Some (mkDate 2024 1 1))
                            (Some (mkDate 2024 12 31)))
            = [("2024-01-01", "Widget", "Ann", agg_add agg_zero widget_sale)]) as ->
      by (by vm_compute).
    apply list_elem_of_here.
Defined.

End Summary.

Section Compositions.

Implicit Types (db : Database) (r : SaleRecord) (df : list SaleRecord).

(** X24. Deleting the record a successful [add_sale_record] has just stored
    returns true and restores the table, but not the AUTOINCREMENT
    counter: the next id stays above the deleted one. *)
Theorem add_then_delete now db d (p c : string) (s pr : Q) (q : Z) :
  let res := add_sale_record None now db d p c s pr q in
  res.1.1 = true →
  let del := delete_sale_record None res.2 (next_rowid db) in
  del.1 = true ∧
  table del.2 = table db ∧
  sqlite_sequence del.2 = next_rowid db ∧
  sqlite_sequence db < sqlite_sequence del.2 ∧
  next_rowid db < next_rowid del.2.
Proof.
  cbv zeta. intros Hok.
  apply add_sale_record_success in Hok as (_ & _ & Htab & Hseq).
  destruct (add_sale_record None now db d p c s pr q) as [[b m] [t sq]].
  cbn [fst snd table sqlite_sequence] in *. subst t sq.
  unfold delete_sale_record, sql_delete. cbn [table sqlite_sequence].
  rewrite lookup_insert_eq. cbn.
  pose proof (next_rowid_gt_seq db) as Hgt.
  split_and!; [done| |done|done|].
  - rewrite delete_insert_eq. apply delete_id, next_rowid_fresh.
  - unfold next_rowid at 2. cbn [sqlite_sequence]. lia.
Qed.

Lemma add_then_delete_witness :
  let del := delete_sale_record None one_row_db 1 in
  del.1 = true ∧ table del.2 = table init_database ∧ sqlite_sequence del.2 = 1.
Proof.
  destruct (add_then_delete 5 init_database (mkDate 2024 1 1) "Widget" "Ann" 100 20 2)
    as (H1 & H2 & H3 & _); [reflexivity|].
  split_and!; [exact H1|exact H2|exact H3].
Defined.

Lemma nlargest_keys_NoDup {A B} n (metric : A → Q) (f : A → B) (rows : list A) :
  NoDup (f <$> rows) → NoDup (f <$> nlargest n metric rows).
Proof.
  intros Hnd. unfold nlargest.
  rewrite <-(sort_desc_perm metric rows) in Hnd.
  rewrite <-(take_drop n (sort_desc metric rows)), fmap_app in Hnd.
  by apply NoDup_app in Hnd as [? _].
Qed.

Lemma nlargest_descending {A} n (metric : A → Q) (rows : list A) :
  StronglySorted (λ a b, (metric b <= metric a)%Q) (nlargest n metric rows).
Proof.
  apply (StronglySorted_weaken (by_metric metric)).
  { intros a b. apply by_metric_le. }
  unfold nlargest. pose proof (nlargest_sorted metric rows) as Hs.
  rewrite <-(take_drop n (sort_desc metric rows)) in Hs.
  by apply StronglySorted_app_1_l in Hs.
Qed.

(** X25. The product ranking and the customer ranking are listed in
    descending order of total sales, no product or customer appears twice,
    and every ranked product or customer belongs to a record of the
    view. *)
Theorem rankings_descend df :
  StronglySorted (λ a b, (agg_sales b.1.2 <= agg_sales a.1.2)%Q) (product_sales df) ∧
  StronglySorted (λ a b, (agg_sales b.2 <= agg_sales a.2)%Q) (customer_sales df) ∧
  NoDup (product_sales df).*1.*1 ∧
  NoDup (customer_sales df).*1 ∧
  (∀ row, row ∈ product_sales df → ∃ r, r ∈ df ∧ product r = row.1.1) ∧
  (∀ row, row ∈ customer_sales df → ∃ r, r ∈ df ∧ customer r = row.1).
Proof.
  unfold product_sales, customer_sales. split_and!.
  - apply (StronglySorted_fmap _ (λ a b : string * Agg, (agg_sales b.2 <= agg_sales a.2)%Q));
      [done|]. apply (nlargest_descending 10 (λ row : string * Agg, agg_sales row.2)).
  - apply (nlargest_descending 10 (λ row : string * Agg, agg_sales row.2)).
  - rewrite <-list_fmap_compose.
    rewrite <-(list_fmap_compose (λ row : string * Agg, (row, margin row.2)) (fst ∘ fst)).
    apply (nlargest_keys_NoDup 10 _ fst), (aggregate_keys_NoDup product df).
  - apply (nlargest_keys_NoDup 10 _ fst), (aggregate_keys_NoDup customer df).
  - intros row [[k a] [-> Hka]]%list_elem_of_fmap. apply nlargest_elem_of in Hka.
    apply (aggregate_keys product df k), list_elem_of_fmap. by exists (k, a).
  - intros [k a] Hka. apply nlargest_elem_of in Hka.
    apply (aggregate_keys customer df k), list_elem_of_fmap. by exists (k, a).
Qed.

End Compositions.

Section KeyInjectivity.

(** X26. For calendar dates with four-digit years two records share their
    Daily key exactly when they share the order date, and their Monthly
    key exactly when they share year and month; records of one Monthly
    bucket are in one Quarterly and one Yearly bucket. *)
Theorem monthly_and_daily_keys_are_injective (r r' : SaleRecord) :
  valid_date (order_date r) → 1000 ≤ year (order_date r) ≤ 9999 →
  valid_date (order_date r') → 1000 ≤ year (order_date r') ≤ 9999 →
  (period_col Daily r = period_col Daily r' ↔ order_date r = order_date r') ∧
  (period_col Monthly r = period_col Monthly r'
   ↔ year (order_date r) = year (order_date r') ∧
     month (order_date r) = month (order_date r')) ∧
  (period_col Monthly r = period_col Monthly r' →
     period_col Quarterly r = period_col Quarterly r' ∧
     period_col Yearly r = period_col Yearly r').
Proof.
  intros Hv Hy Hv' Hy'.
  pose proof (daily_key_order r r' Hv Hy Hv' Hy') as Hd1.
  pose proof (daily_key_order r' r Hv' Hy' Hv Hy) as Hd2.
  pose proof (monthly_key_order r r' Hv Hy Hv' Hy') as Hm1.
  pose proof (monthly_key_order r' r Hv' Hy' Hv Hy) as Hm2.
  assert (period_col Monthly r = period_col Monthly r'
          → year (order_date r) = year (order_date r') ∧
            month (order_date r) = month (order_date r')) as Hmonth.
  { intros E. rewrite E in Hm1, Hm2. cbn in Hm1, Hm2.
    rewrite string_leb_refl in Hm1, Hm2.
    destruct Hm1 as [Hm1 _], Hm2 as [Hm2 _].
    specialize (Hm1 eq_refl). specialize (Hm2 eq_refl). lia. }
  split_and!.
  - split.
    + intros E. rewrite E in Hd1, Hd2. cbn in Hd1, Hd2.
      rewrite string_leb_refl in Hd1, Hd2.
      destruct Hd1 as [Hd1 _], Hd2 as [Hd2 _].
      specialize (Hd1 eq_refl). specialize (Hd2 eq_refl).
      unfold date_le in *.
      destruct (order_date r) as [y m d], (order_date r') as [y' m' d'].
      cbn [year month day] in *. f_equal; lia.
    + cbn. by intros ->.
  - split; [done|]. intros [Ey Em]. cbn. unfold strftime_Ym. by rewrite Ey, Em.
  - intros [Ey Em]%Hmonth. cbn. unfold quarter. by rewrite Ey, Em.
Qed.

Lemma monthly_and_daily_keys_are_injective_witness :
  (period_col Daily feb_2023_sale = period_col Daily feb_2024_sale
   ↔ order_date feb_2023_sale = order_date feb_2024_sale) ∧
  (period_col Monthly feb_2023_sale = period_col Monthly feb_2024_sale
   ↔ year (order_date feb_2023_sale) = year (order_date feb_2024_sale) ∧
     month (order_date feb_2023_sale) = month (order_date feb_2024_sale)).
Proof.
  destruct (monthly_and_daily_keys_are_injective feb_2023_sale feb_2024_sale)
    as (Hd & Hm & _); [by vm_compute|by vm_compute|by vm_compute|by vm_compute|].
  split; [exact Hd|exact Hm].
Defined.

End KeyInjectivity.
